(** * Content collections: frontmatter, schema validation, config loading

    A shallow embedding of [packages/astro/src/content/utils.ts].

    JavaScript strings are modelled by [string] (a sequence of code units),
    numbers that are line numbers, columns and indices by [Z], [undefined]
    by [None], a thrown value by the [Throw] completion, a promise by the
    state it settles in, and the collaborators that live outside this
    module (the validator library, the frontmatter parser, the platform,
    the module-execution server, the table of error data) by classes and
    records whose fields are their operations. The first part holds the
    model, the second its properties. *)

From Stdlib Require Import String Ascii ZArith DecimalString Lia.
From stdpp Require Import list strings.

Local Open Scope Z_scope.
Local Open Scope nat_scope.

(** ** Strings *)

Module JsString.

Definition newline : ascii := "010"%char.

(** [s.indexOf(searchString)]: the offset of the first occurrence, or -1. *)
Definition indexOf (s searchString : string) : Z :=
  match String.index 0 searchString s with
  | Some i => Z.of_nat i
  | None => (-1)%Z
  end.

(** [s.substring(start, end)]: both bounds are clamped to the string and
    swapped when they come in the wrong order. *)
Definition substring (s : string) (indexStart indexEnd : Z) : string :=
  let len := Z.of_nat (String.length s) in
  let a := Z.min (Z.max indexStart 0) len in
  let b := Z.min (Z.max indexEnd 0) len in
  let from := Z.min a b in
  let to := Z.max a b in
  String.substring (Z.to_nat from) (Z.to_nat (to - from)) s.

(** [s.split(sep)] for a separator of one code unit. *)
Fixpoint split (sep : ascii) (s : string) : list string :=
  match s with
  | EmptyString => [EmptyString]
  | String c s' =>
      if Ascii.eqb c sep then EmptyString :: split sep s'
      else match split sep s' with
           | piece :: pieces => String c piece :: pieces
           | [] => [String c EmptyString]
           end
  end.

(** Occurrences of a pattern, as a relation and as a test. *)
Definition occurs_at (pat s : string) (i : nat) : Prop :=
  exists pre post, s = pre +:+ pat +:+ post /\ String.length pre = i.

Fixpoint occurs_atb (pat s : string) (i : nat) {struct i} : bool :=
  match i with
  | O => String.prefix pat s
  | S i' => match s with
            | EmptyString => false
            | String _ s' => occurs_atb pat s' i'
            end
  end.

Definition first_occurrence (pat s : string) (i : nat) : Prop :=
  occurs_at pat s i /\ forall j, j < i -> ~ occurs_at pat s j.

Fixpoint count_char (c : ascii) (s : string) : nat :=
  match s with
  | EmptyString => 0
  | String c' s' => (if Ascii.eqb c' c then 1 else 0) + count_char c s'
  end.

(** The 1-based number of the line that holds the code unit at [offset]:
    one more than the number of line breaks before it. *)
Definition line_number (s : string) (offset : nat) : nat :=
  S (count_char newline (String.substring 0 offset s)).

Definition nl : string := String newline EmptyString.

(** The pattern occurs at no offset other than 0. *)
Definition occurs_only_at_start (pat s : string) : bool :=
  forallb (fun i => negb (occurs_atb pat s (S i))) (seq 0 (String.length s)).

End JsString.

(** ** 4.2 The error-line locator *)

Definition getFrontmatterErrorLine (rawFrontmatter frontmatterKey : string) : Z :=
  let indexOfFrontmatterKey :=
    JsString.indexOf rawFrontmatter (String JsString.newline frontmatterKey) in
  if (indexOfFrontmatterKey =? -1)%Z then 0%Z
  else
    let frontmatterBeforeKey :=
      JsString.substring rawFrontmatter 0 (indexOfFrontmatterKey + 1) in
    let numNewlinesBeforeKey :=
      Z.of_nat (length (JsString.split JsString.newline frontmatterBeforeKey)) in
    numNewlinesBeforeKey.

(** The frontmatter of the example: four lines, [title] on the second. *)
Definition example_frontmatter : string :=
  String.concat JsString.nl ["---"; "title: 5"; "body: x"; "---"]%string.

(** ** Values, thrown values and promises *)

(** Frontmatter data: the values a YAML block decodes to. *)
#[warnings="-register-all"] Inductive JsValue : Type :=
  | JUndefined
  | JNull
  | JBool (b : bool)
  | JNumber (n : Z)
  | JString (s : string)
  | JArray (items : list JsValue)
  | JObject (fields : list (string * JsValue)).

(** An entry of [AstroErrorData] without its message builder. *)
Record ErrorData := {
  error_title : string;
  error_code : Z;
  error_hint : string;
}.

Record ErrorLocation := {
  loc_file : option string;
  loc_line : Z;
  loc_column : Z;
}.

(** [new AstroError({...data, message, location})]. *)
Record AstroError := {
  astro_data : ErrorData;
  astro_message : string;
  astro_location : ErrorLocation;
}.

(** The position a YAML exception carries (0-based line). *)
Record Mark := {
  mark_line : Z;
  mark_column : Z;
}.

(** Any other thrown object, with the properties this module reads or
    writes; a property that is not set is [None]. *)
Record JsError := {
  error_name : string;
  error_message : string;
  error_reason : string;
  error_mark : option Mark;
  error_id : option string;
  error_loc : option ErrorLocation;
}.

Inductive Thrown : Type :=
  | ThrownAstroError (e : AstroError)
  | ThrownError (e : JsError).

(** What the runtime throws when a property of [undefined] is read. *)
Definition TypeError (msg : string) : Thrown :=
  ThrownError {| error_name := "TypeError"; error_message := msg;
                 error_reason := ""; error_mark := None;
                 error_id := None; error_loc := None |}.

(** The result of a call: a value or a thrown value. *)
Inductive Completion (A : Type) : Type :=
  | Normal (a : A)
  | Throw (e : Thrown).
Arguments Normal {A} a.
Arguments Throw {A} e.

(** The state a promise ends in; [Pending] is a promise that never settles. *)
Inductive Promise (A : Type) : Type :=
  | Fulfilled (a : A)
  | Rejected (e : Thrown)
  | Pending.
Arguments Fulfilled {A} a.
Arguments Rejected {A} e.
Arguments Pending {A}.

(** [a ?? b] on a value that may be [undefined]. *)
Definition nullish_coalesce {A : Type} (a : option A) (b : A) : A :=
  match a with
  | Some v => v
  | None => b
  end.

(** [f?.(x)]: [undefined] when [f] is, the call otherwise. *)
Definition optional_call {A B : Type} (f : option (A -> Completion B)) (x : A)
  : Completion (option B) :=
  match f with
  | None => Normal None
  | Some fn => match fn x with
               | Normal b => Normal (Some b)
               | Throw e => Throw e
               end
  end.

(** ** The validator's issues *)

Inductive ZodParsedType : Type :=
  | zt_string | zt_nan | zt_number | zt_integer | zt_float | zt_boolean
  | zt_date | zt_bigint | zt_symbol | zt_function | zt_undefined | zt_null
  | zt_array | zt_object | zt_unknown | zt_promise | zt_void | zt_never
  | zt_map | zt_set.

(** The enumeration's values are its names: what a template literal prints. *)
Definition ZodParsedType_toString (t : ZodParsedType) : string :=
  match t with
  | zt_string => "string" | zt_nan => "nan" | zt_number => "number"
  | zt_integer => "integer" | zt_float => "float" | zt_boolean => "boolean"
  | zt_date => "date" | zt_bigint => "bigint" | zt_symbol => "symbol"
  | zt_function => "function" | zt_undefined => "undefined"
  | zt_null => "null" | zt_array => "array" | zt_object => "object"
  | zt_unknown => "unknown" | zt_promise => "promise" | zt_void => "void"
  | zt_never => "never" | zt_map => "map" | zt_set => "set"
  end.

(** The issue codes other than [invalid_type]. *)
Inductive ZodOtherCode : Type :=
  | invalid_literal | custom | invalid_union | invalid_union_discriminator
  | invalid_enum_value | unrecognized_keys | invalid_arguments
  | invalid_return_type | invalid_date | invalid_string | too_small | too_big
  | invalid_intersection_types | not_multiple_of | not_finite.

(** An issue is a union discriminated by its code; only [invalid_type]
    carries [expected] and [received]. *)
Inductive ZodIssueCode : Type :=
  | invalid_type (expected received : ZodParsedType)
  | other_code (code : ZodOtherCode).

Inductive PathSegment : Type :=
  | Key (s : string)
  | Index (n : Z).

(** The issue handed to an error map: its message is still optional. *)
Record ZodIssueOptionalMessage := {
  raw_code : ZodIssueCode;
  raw_path : list PathSegment;
  raw_message : option string;
}.

Record ZodIssue := {
  issue_code : ZodIssueCode;
  issue_path : list PathSegment;
  issue_message : string;
}.

Record ZodError := { errors : list ZodIssue }.

Record ErrorMapCtx := { defaultError : string }.

Record ErrorMapResult := { message : string }.

Definition ZodErrorMap : Type :=
  ZodIssueOptionalMessage -> ErrorMapCtx -> ErrorMapResult.

Inductive SafeParseReturn (A : Type) : Type :=
  | ParseSuccess (data : A)
  | ParseFailure (error : ZodError).
Arguments ParseSuccess {A} data.
Arguments ParseFailure {A} error.

(** ** Conversions to strings *)

Module Js.

Definition dquote : ascii := "034"%char.
Definition backslash : ascii := "092"%char.

(** [String(n)] for an integer. *)
Definition Number_toString (n : Z) : string :=
  NilZero.string_of_int (Z.to_int n).

Definition PathSegment_toString (seg : PathSegment) : string :=
  match seg with
  | Key s => s
  | Index n => Number_toString n
  end.

(** [String(x)] for a path segment that may be [undefined]. *)
Definition String_ (x : option PathSegment) : string :=
  match x with
  | Some seg => PathSegment_toString seg
  | None => "undefined"
  end.

(** [array.join(sep)]. *)
Definition join (sep : string) (items : list PathSegment) : string :=
  String.concat sep (map PathSegment_toString items).

Definition hex_digit (n : nat) : ascii :=
  match n with
  | 0 => "0" | 1 => "1" | 2 => "2" | 3 => "3" | 4 => "4" | 5 => "5"
  | 6 => "6" | 7 => "7" | 8 => "8" | 9 => "9" | 10 => "a" | 11 => "b"
  | 12 => "c" | 13 => "d" | 14 => "e" | _ => "f"
  end%char.

(** The code units [JSON.stringify] leaves as they are. *)
Definition plain (c : ascii) : bool :=
  let n := nat_of_ascii c in
  negb (n <? 32) && negb (n =? 34) && negb (n =? 92).

(** One code unit of a quoted JSON string (QuoteJSONString). *)
Definition quote_unit (c : ascii) : string :=
  let n := nat_of_ascii c in
  let esc (x : ascii) := String backslash (String x EmptyString) in
  if n =? 8 then esc "b"%char
  else if n =? 9 then esc "t"%char
  else if n =? 10 then esc "n"%char
  else if n =? 12 then esc "f"%char
  else if n =? 13 then esc "r"%char
  else if n =? 34 then esc dquote
  else if n =? 92 then esc backslash
  else if n <? 32 then
    String backslash
      (String "u" (String "0" (String "0"
        (String (hex_digit (n / 16)) (String (hex_digit (n mod 16)) EmptyString)))))
  else String c EmptyString.

Fixpoint quote_units (s : string) : string :=
  match s with
  | EmptyString => EmptyString
  | String c s' => quote_unit c +:+ quote_units s'
  end.

(** [JSON.stringify(s)] for a string [s]. *)
Definition JSON_stringify (s : string) : string :=
  String dquote (quote_units s +:+ String dquote EmptyString).

(** A text between double quotes. *)
Definition in_quotes (s : string) : string :=
  String dquote (s +:+ String dquote EmptyString).

Fixpoint all_plain (s : string) : bool :=
  match s with
  | EmptyString => true
  | String c s' => plain c && all_plain s'
  end.

End Js.

(** ** 4.3 The error map *)

Definition flattenPath (path : list PathSegment) : string := Js.join "." path.

Definition errorMap : ZodErrorMap := fun error ctx =>
  match raw_code error with
  | invalid_type expected received =>
      let badKeyPath := Js.JSON_stringify (flattenPath (raw_path error)) in
      if String.eqb (ZodParsedType_toString received) "undefined" then
        {| message := badKeyPath +:+ " is required." |}
      else
        {| message := badKeyPath +:+ " should be "
                        +:+ ZodParsedType_toString expected +:+ ", not "
                        +:+ ZodParsedType_toString received +:+ "." |}
  | other_code _ => {| message := defaultError ctx |}
  end.

(** ** Collaborators *)

(** The validator library. [Shape] is what [z.object] accepts. Validation
    yields the parsed data or the issues as the schemas raise them, each
    with the message the schema-bound and default error maps give it.
    [ZodError_message] is the error's [message] getter. *)
Class Validator := {
  Shape : Type;
  validate : Shape -> JsValue -> JsValue + list (ZodIssueOptionalMessage * string);
  ZodError_message : ZodError -> string;
}.

(** The table of error data of [core/errors]. *)
Class ErrorTable := {
  MarkdownContentSchemaValidationError : ErrorData;
  MarkdownContentSchemaValidationError_message :
    string -> string -> ZodError -> string;
}.

(** [gray-matter]: the decoded front block and the body, or a throw. Its
    cache is cleared before every call, so the answer depends on the file
    contents alone. *)
Record GrayMatterFile := {
  matter_data : JsValue;
  matter_content : string;
}.

Class FrontmatterLib := {
  matter : string -> Completion GrayMatterFile;
}.

(** ** Entries and collection configurations *)

Record EntryInternal := {
  rawData : string;
  filePath : string;
}.

Record Entry := {
  entry_id : string;
  entry_collection : string;
  entry_slug : string;
  entry_data : JsValue;
  entry_body : string;
  entry_internal : EntryInternal;
}.

(** The argument of a collection's slug function. *)
Record SlugArgs := {
  id : string;
  data : JsValue;
  defaultSlug : string;
  collection : string;
  body : string;
}.

(** What a slug function returns: a string or a promise of one. *)
Inductive SlugResult : Type :=
  | SlugString (s : string)
  | SlugPromise (p : Promise string).

Definition SlugFunction : Type := SlugArgs -> Completion SlugResult.

Section Collections.
Context `{V : Validator}.

(** [schema] and [slug] are optional; an absent one is [None]. *)
Record CollectionConfig := {
  cfg_schema : option Shape;
  cfg_slug : option SlugFunction;
}.

Record ContentConfig := {
  collections : list (string * CollectionConfig);
}.

(** The parser of the configuration module's exports. *)
Class ConfigModule := {
  ModuleExports : Type;
  contentConfigParser_safeParse : ModuleExports -> SafeParseReturn ContentConfig;
}.

(** *** 4.4 The slug resolver *)

(** An async function settles with the value it returns; a returned
    promise is adopted, a throw rejects. *)
Definition async_return (r : Completion SlugResult) : Promise string :=
  match r with
  | Normal (SlugString s) => Fulfilled s
  | Normal (SlugPromise p) => p
  | Throw e => Rejected e
  end.

Definition getEntrySlug (entry : Entry) (collectionConfig : CollectionConfig)
  : Promise string :=
  async_return
    match optional_call (cfg_slug collectionConfig)
            {| id := entry_id entry;
               data := entry_data entry;
               defaultSlug := entry_slug entry;
               collection := entry_collection entry;
               body := entry_body entry |} with
    | Normal r => Normal (nullish_coalesce r (SlugString (entry_slug entry)))
    | Throw e => Throw e
    end.

(** *** 4.3 The schema validator *)

(** The library gives an issue its message: the one the issue brings, or
    else what the error map of the call says, which has the last word over
    the schema-bound and default maps. *)
Definition makeIssue (contextualErrorMap : ZodErrorMap)
    (raised : ZodIssueOptionalMessage * string) : ZodIssue :=
  let (issueData, lowerPriorityMessage) := raised in
  {| issue_code := raw_code issueData;
     issue_path := raw_path issueData;
     issue_message :=
       match raw_message issueData with
       | Some m => m
       | None =>
           message (contextualErrorMap issueData
                      {| defaultError := lowerPriorityMessage |})
       end |}.

(** [z.object(schema).safeParseAsync(data, { errorMap })]. *)
Definition safeParseAsync (schema : Shape) (data : JsValue)
    (contextualErrorMap : ZodErrorMap) : SafeParseReturn JsValue :=
  match validate schema data with
  | inl parsed => ParseSuccess parsed
  | inr raised =>
      ParseFailure {| errors := map (makeIssue contextualErrorMap) raised |}
  end.

Context `{T : ErrorTable}.

Definition getEntryData (entry : Entry) (collectionConfig : CollectionConfig)
  : Promise JsValue :=
  let data := entry_data entry in
  match cfg_schema collectionConfig with
  | Some schema =>
      match safeParseAsync schema (entry_data entry) errorMap with
      | ParseSuccess parsed_data => Fulfilled parsed_data
      | ParseFailure parsed_error =>
          let formatted_message :=
            MarkdownContentSchemaValidationError_message
              (entry_collection entry) (entry_id entry) parsed_error in
          match errors parsed_error !! 0 with
          | None => Rejected (TypeError "Cannot read properties of undefined")
          | Some first =>
              let formattedError :=
                {| astro_data := MarkdownContentSchemaValidationError;
                   astro_message := formatted_message;
                   astro_location :=
                     {| loc_file := Some (filePath (entry_internal entry));
                        loc_line :=
                          getFrontmatterErrorLine
                            (rawData (entry_internal entry))
                            (Js.String_ (issue_path first !! 0));
                        loc_column := 0 |} |} in
              Rejected (ThrownAstroError formattedError)
          end
      end
  | None => Fulfilled data
  end.

End Collections.

(** ** 4.1 The frontmatter parser *)

Section Frontmatter.
Context `{F : FrontmatterLib}.

(** The caught object is updated in place: [err] is another name for [e],
    so [e.id] read for [loc.file] is the [filePath] just stored. *)
Definition parseFrontmatter (fileContents : string) (filePath : string)
  : Completion GrayMatterFile :=
  match matter fileContents with
  | Normal file => Normal file
  | Throw (ThrownError e) =>
      if String.eqb (error_name e) "YAMLException" then
        let e1 := {| error_name := error_name e;
                     error_message := error_message e;
                     error_reason := error_reason e;
                     error_mark := error_mark e;
                     error_id := Some filePath;
                     error_loc := error_loc e |} in
        match error_mark e1 with
        | None => Throw (TypeError "Cannot read properties of undefined")
        | Some mark =>
            let e2 := {| error_name := error_name e1;
                         error_message := error_message e1;
                         error_reason := error_reason e1;
                         error_mark := error_mark e1;
                         error_id := error_id e1;
                         error_loc :=
                           Some {| loc_file := error_id e1;
                                   loc_line := mark_line mark + 1;
                                   loc_column := mark_column mark |} |} in
            let e3 := {| error_name := error_name e2;
                         error_message := error_reason e2;
                         error_reason := error_reason e2;
                         error_mark := error_mark e2;
                         error_id := error_id e2;
                         error_loc := error_loc e2 |} in
            Throw (ThrownError e3)
        end
      else Throw (ThrownError e)
  | Throw other => Throw other
  end.

End Frontmatter.

(** ** 4.5 and 4.6 Content paths and the configuration loader *)

Inductive ConfigError : Type :=
  | NotFoundError
  | ZodParseError (message : string).

(** [node:url], [fast-glob] over the injected file system, and the plugin
    that serves the virtual content module. *)
Class Platform := {
  URL : Type;
  FileSystem : Type;
  Plugin : Type;
  fileURLToPath : URL -> string;
  pathToFileURL : string -> URL;
  new_URL : string -> URL -> URL;
  pathname : URL -> string;
  import_meta_url : URL;
  glob_sync : string -> string -> FileSystem -> list string;
}.

Section Paths.
Context `{P : Platform}.

Record ContentPaths := {
  contentDir : URL;
  cacheDir : URL;
  generatedInputDir : URL;
  config : option URL;
}.

Record AstroConfig := {
  srcDir : URL;
  root : URL;
}.

Record AstroSettings := {
  settings_config : AstroConfig;
}.

Definition getContentDir (srcDir : URL) : URL := new_URL "./content/" srcDir.

(** A string is truthy unless it is empty. *)
Definition truthy (s : option string) : bool :=
  match s with
  | Some (String _ _) => true
  | Some EmptyString | None => false
  end.

Definition getContentPaths (srcDir rootDir : URL) (fs : FileSystem)
  : ContentPaths :=
  let configPath :=
    glob_sync "content.config.{ts,js,mjs}" (fileURLToPath rootDir) fs !! 0 in
  {| contentDir := getContentDir srcDir;
     cacheDir := rootDir;
     generatedInputDir := new_URL "../../src/content/template/" import_meta_url;
     config := if truthy configPath then pathToFileURL <$> configPath else None |}.

(** The options [createServer] is called with. *)
Record InlineConfig := {
  inline_root : string;
  middlewareMode : bool;
  hmr : bool;
  optimizeDeps_entries : list string;
  clearScreen : bool;
  appType : string;
  logLevel : string;
  plugins : list Plugin;
}.

Class VirtualModPlugin := {
  astroContentVirtualModPlugin : AstroSettings -> Plugin;
}.

End Paths.

Section Loader.
Context `{V : Validator} `{C : @ConfigModule V} `{P : Platform}
        `{VP : @VirtualModPlugin P}.

(** How the module-execution server answers during one load: each awaited
    call resolves or rejects. [close_result k] answers the call of [close]
    that comes after [k] earlier ones. *)
Record ViteHost := {
  createServer_result : InlineConfig -> Completion unit;
  ssrLoadModule_result : string -> Completion ModuleExports;
  close_result : nat -> Completion unit;
}.

Inductive ServerStatus : Type :=
  | NotCreated
  | Open
  | Closed.

Record Servers := {
  tempConfigServer : ServerStatus;
  close_calls : nat;
}.

Definition no_server : Servers :=
  {| tempConfigServer := NotCreated; close_calls := 0 |}.

(** Awaited calls thread the state of the server and may reject. *)
Definition Async (A : Type) : Type := Servers -> Completion A * Servers.

Definition ret {A : Type} (a : A) : Async A := fun w => (Normal a, w).

Definition bind {A B : Type} (m : Async A) (k : A -> Async B) : Async B :=
  fun w =>
    match m w with
    | (Normal a, w') => k a w'
    | (Throw e, w') => (Throw e, w')
    end.

Definition try_catch {A : Type} (m : Async A) (handler : Thrown -> Async A)
  : Async A :=
  fun w =>
    match m w with
    | (Normal a, w') => (Normal a, w')
    | (Throw e, w') => handler e w'
    end.

Notation "'await' x <- m ; k" := (bind m (fun x => k))
  (at level 10, x name, m at level 100, k at level 200).
Notation "'await_' m ; k" := (bind m (fun _ => k))
  (at level 10, m at level 100, k at level 200).

Definition createServer (h : ViteHost) (inlineConfig : InlineConfig)
  : Async unit :=
  fun w =>
    match createServer_result h inlineConfig with
    | Normal _ =>
        (Normal tt, {| tempConfigServer := Open; close_calls := close_calls w |})
    | Throw e => (Throw e, w)
    end.

Definition ssrLoadModule (h : ViteHost) (url : string) : Async ModuleExports :=
  fun w => (ssrLoadModule_result h url, w).

Definition close (h : ViteHost) : Async unit :=
  fun w =>
    match close_result h (close_calls w) with
    | Normal _ =>
        (Normal tt,
         {| tempConfigServer := Closed; close_calls := S (close_calls w) |})
    | Throw e =>
        (Throw e,
         {| tempConfigServer := tempConfigServer w;
            close_calls := S (close_calls w) |})
    end.

(** The body of the [try] either goes on with the loaded module or leaves
    the function with the value of the [return] in the [catch]. *)
Definition loadContentConfig (h : ViteHost) (fs : FileSystem)
    (settings : AstroSettings) : Async (ContentConfig + ConfigError) :=
  let contentPaths :=
    getContentPaths (srcDir (settings_config settings))
                    (root (settings_config settings)) fs in
  match config contentPaths with
  | None => ret (inr NotFoundError)
  | Some contentPaths_config =>
      await_ createServer h
        {| inline_root := fileURLToPath (root (settings_config settings));
           middlewareMode := true;
           hmr := false;
           optimizeDeps_entries := [];
           clearScreen := false;
           appType := "custom";
           logLevel := "silent";
           plugins := [astroContentVirtualModPlugin settings] |} ;
      await outcome <-
        try_catch
          (await unparsedConfig <-
             ssrLoadModule h (pathname contentPaths_config) ;
           await_ close h ;
           ret (inl unparsedConfig))
          (fun _ =>
             await_ close h ;
             ret (inr NotFoundError)) ;
      match outcome with
      | inr returned => ret (inr returned)
      | inl unparsedConfig =>
          match contentConfigParser_safeParse unparsedConfig with
          | ParseSuccess config_data => ret (inl config_data)
          | ParseFailure config_error =>
              ret (inr (ZodParseError (ZodError_message config_error)))
          end
      end
  end.

(** The loader called when no server exists yet. *)
Definition run_loadContentConfig (h : ViteHost) (fs : FileSystem)
    (settings : AstroSettings) : Completion (ContentConfig + ConfigError) * Servers :=
  loadContentConfig h fs settings no_server.

(** Names for what the loader computes on the way: the options the server
    is created with, the configuration file found, the value returned for
    a loaded module, and the state of the server at the end. *)
Definition server_options (settings : AstroSettings) : InlineConfig :=
  {| inline_root := fileURLToPath (root (settings_config settings));
     middlewareMode := true;
     hmr := false;
     optimizeDeps_entries := [];
     clearScreen := false;
     appType := "custom";
     logLevel := "silent";
     plugins := [astroContentVirtualModPlugin settings] |}.

Definition config_of (fs : FileSystem) (settings : AstroSettings) : option URL :=
  config (getContentPaths (srcDir (settings_config settings))
                          (root (settings_config settings)) fs).

(** The value the loader returns for a loaded module. *)
Definition parsed (unparsedConfig : ModuleExports) : ContentConfig + ConfigError :=
  match contentConfigParser_safeParse unparsedConfig with
  | ParseSuccess config_data => inl config_data
  | ParseFailure config_error =>
      inr (ZodParseError (ZodError_message config_error))
  end.

Definition closed_after (n : nat) : Servers :=
  {| tempConfigServer := Closed; close_calls := n |}.

Definition open_after (n : nat) : Servers :=
  {| tempConfigServer := Open; close_calls := n |}.

End Loader.

(** ** 4.7 The configuration observable *)

(** A subscriber is a function object; the number stands for its identity. *)
Abbreviation Subscriber := nat (only parsing).

(** The data of a [Set] as the language defines it: the values in
    insertion order, a deleted one replaced by an empty slot, so that an
    iteration in progress keeps its place. *)
Abbreviation SetData := (list (option Subscriber)) (only parsing).

Section Observable.
Context `{V : Validator}.

Inductive ContentCtx : Type :=
  | status_loading
  | status_loaded (config : ContentConfig)
  | status_error (error : ConfigError).

(** What a piece of code does, in order: its calls of the observable's
    functions, and a [throw] that ends it. *)
Inductive Call : Type :=
  | call_set (_ctx : ContentCtx)
  | call_subscribe (fn : Subscriber)
  | call_unsubscribe (fn : Subscriber)
  | call_throw (e : Thrown).

(** What each subscriber does when it is called with a context. *)
Definition Callbacks : Type := Subscriber -> ContentCtx -> list Call.

Definition Set_has (fn : Subscriber) (s : SetData) : bool :=
  bool_decide (Some fn ∈ s).

Definition Set_add (fn : Subscriber) (s : SetData) : SetData :=
  if Set_has fn s then s else s ++ [Some fn].

Definition Set_delete (fn : Subscriber) (s : SetData) : SetData :=
  (fun e => if bool_decide (e = Some fn) then None else e) <$> s.

(** The values of the set, in insertion order. *)
Definition Set_values (s : SetData) : list Subscriber := omap (fun e => e) s.

(** The variables [contentObservable] closes over, and the calls of
    subscribers made so far, oldest first. *)
Record Store := mkStore {
  ctx : ContentCtx;
  subscribers : SetData;
  calls : list (Subscriber * ContentCtx);
}.

Definition contentObservable (initialCtx : ContentCtx) : Store :=
  {| ctx := initialCtx; subscribers := []; calls := [] |}.

Definition get (st : Store) : ContentCtx := ctx st.

Definition assign_ctx (_ctx : ContentCtx) (st : Store) : Store :=
  {| ctx := _ctx; subscribers := subscribers st; calls := calls st |}.

Definition subscribe (fn : Subscriber) (st : Store) : Store :=
  {| ctx := ctx st; subscribers := Set_add fn (subscribers st);
     calls := calls st |}.

(** The function [subscribe] returns. *)
Definition unsubscribe (fn : Subscriber) (st : Store) : Store :=
  {| ctx := ctx st; subscribers := Set_delete fn (subscribers st);
     calls := calls st |}.

Definition record_call (fn : Subscriber) (st : Store) : Store :=
  {| ctx := ctx st; subscribers := subscribers st;
     calls := calls st ++ [(fn, ctx st)] |}.

(** What is left to run: the rest of a body, or [forEach] from slot [i]. *)
Inductive Task : Type :=
  | Calls (cs : list Call)
  | ForEach (i : nat).

(** How a run ends: it returns, or an exception leaves it; the store is
    as the run left it in both cases. *)
Inductive Outcome : Type :=
  | Returned (st : Store)
  | Threw (e : Thrown) (st : Store).

Definition store_of (o : Outcome) : Store :=
  match o with
  | Returned st => st
  | Threw _ st => st
  end.

(** [forEach] reads the slot at its index in the set as it is now, so it
    skips what was deleted and reaches what was added meanwhile; the
    callback is called with the variable [ctx] as it is at that moment.
    An exception out of a callback leaves [forEach], [set] and the body
    that called [set]. A subscriber may call [set] again, so the run is
    bounded by [fuel]; [None] is a run that did not finish within it. *)
Fixpoint run (body : Callbacks) (fuel : nat) (t : Task) (st : Store)
  : option Outcome :=
  match fuel with
  | O => None
  | S fuel' =>
      match t with
      | Calls [] => Some (Returned st)
      | Calls (c :: cs) =>
          match c with
          | call_throw e => Some (Threw e st)
          | call_set _ctx =>
              match run body fuel' (ForEach 0) (assign_ctx _ctx st) with
              | Some (Returned st') => run body fuel' (Calls cs) st'
              | Some (Threw e st') => Some (Threw e st')
              | None => None
              end
          | call_subscribe fn => run body fuel' (Calls cs) (subscribe fn st)
          | call_unsubscribe fn => run body fuel' (Calls cs) (unsubscribe fn st)
          end
      | ForEach i =>
          match subscribers st !! i with
          | None => Some (Returned st)
          | Some None => run body fuel' (ForEach (S i)) st
          | Some (Some fn) =>
              match run body fuel' (Calls (body fn (ctx st))) (record_call fn st) with
              | Some (Returned st') => run body fuel' (ForEach (S i)) st'
              | Some (Threw e st') => Some (Threw e st')
              | None => None
              end
          end
      end
  end.

Definition set (body : Callbacks) (fuel : nat) (_ctx : ContentCtx) (st : Store)
  : option Outcome :=
  run body fuel (ForEach 0) (assign_ctx _ctx st).


(** *** The notification order in words *)

Definition is_unsubscribe (c : Call) : bool :=
  match c with
  | call_unsubscribe _ => true
  | call_set _ | call_subscribe _ | call_throw _ => false
  end.

Definition unsubscribed_by (cs : list Call) : list Subscriber :=
  omap (fun c => match c with
                 | call_unsubscribe fn => Some fn
                 | call_set _ | call_subscribe _ | call_throw _ => None
                 end) cs.

(** Walk the subscribers in registration order; call each one that nobody
    has unsubscribed so far, and remember whom it unsubscribes. The result
    is who was called, in order, and who is unsubscribed at the end. *)
Fixpoint notify_in_order (body : Callbacks) (c : ContentCtx)
    (gone : list Subscriber) (slots : SetData)
  : list Subscriber * list Subscriber :=
  match slots with
  | [] => ([], gone)
  | None :: rest => notify_in_order body c gone rest
  | Some fn :: rest =>
      if bool_decide (fn ∈ gone) then notify_in_order body c gone rest
      else
        let (called, gone') :=
          notify_in_order body c (unsubscribed_by (body fn c) ++ gone) rest in
        (fn :: called, gone')
  end.



(** No subscriber subscribes [fn] from its body. *)
Definition never_subscribes (body : Callbacks) (fn : Subscriber) : Prop :=
  forall g c, call_subscribe fn ∉ body g c.

(** The set once every subscriber of [gone] is deleted from it. *)
Definition Set_delete_all (gone : list Subscriber) (s : SetData) : SetData :=
  (fun e => match e with
            | Some fn => if bool_decide (fn ∈ gone) then None else Some fn
            | None => None
            end) <$> s.


End Observable.

(** ** Instances of the collaborators, to run the code on examples *)

Module Examples.

(** A validator for shapes of primitive fields, after the library: a
    field of the wrong type raises [invalid_type] at its key, with the
    library's default wording. *)
Inductive FieldType : Type :=
  | z_string
  | z_number
  | z_boolean.

Definition FieldType_expected (t : FieldType) : ZodParsedType :=
  match t with
  | z_string => zt_string
  | z_number => zt_number
  | z_boolean => zt_boolean
  end.

Definition getParsedType (v : JsValue) : ZodParsedType :=
  match v with
  | JUndefined => zt_undefined
  | JNull => zt_null
  | JBool _ => zt_boolean
  | JNumber _ => zt_number
  | JString _ => zt_string
  | JArray _ => zt_array
  | JObject _ => zt_object
  end.

Fixpoint property (key : string) (fields : list (string * JsValue)) : JsValue :=
  match fields with
  | [] => JUndefined
  | (k, v) :: rest => if String.eqb k key then v else property key rest
  end.

Definition ZodParsedType_eqb (a b : ZodParsedType) : bool :=
  String.eqb (ZodParsedType_toString a) (ZodParsedType_toString b).

Definition defaultErrorMap (expected received : ZodParsedType) : string :=
  if ZodParsedType_eqb received zt_undefined then "Required"
  else "Expected " +:+ ZodParsedType_toString expected
         +:+ ", received " +:+ ZodParsedType_toString received.

Definition invalid (path : list PathSegment) (expected received : ZodParsedType)
  : ZodIssueOptionalMessage * string :=
  ({| raw_code := invalid_type expected received;
      raw_path := path;
      raw_message := None |},
   defaultErrorMap expected received).

Definition check_field (fields : list (string * JsValue))
    (field : string * FieldType) : list (ZodIssueOptionalMessage * string) :=
  let (key, t) := field in
  let received := getParsedType (property key fields) in
  if ZodParsedType_eqb received (FieldType_expected t) then []
  else [invalid [Key key] (FieldType_expected t) received].

Definition object_validate (shape : list (string * FieldType)) (data : JsValue)
  : JsValue + list (ZodIssueOptionalMessage * string) :=
  match data with
  | JObject fields =>
      match flat_map (check_field fields) shape with
      | [] => inl (JObject (map (fun f => (fst f, property (fst f) fields)) shape))
      | issue :: issues => inr (issue :: issues)
      end
  | JUndefined | JNull | JBool _ | JNumber _ | JString _ | JArray _ =>
      inr [invalid [] zt_object (getParsedType data)]
  end.

#[export] Instance primitive_validator : Validator := {|
  Shape := list (string * FieldType);
  validate := object_validate;
  ZodError_message := fun e => String.concat JsString.nl (map issue_message (errors e));
|}.

(** A schema whose refinement reports a title that is not a string by a
    wrong-type issue it words itself, as [ctx.addIssue] lets it. *)
Definition refined_validate (_ : unit) (data : JsValue)
  : JsValue + list (ZodIssueOptionalMessage * string) :=
  match data with
  | JObject fields =>
      let received := getParsedType (property "title" fields) in
      if ZodParsedType_eqb received zt_string then inl data
      else inr [({| raw_code := invalid_type zt_string received;
                    raw_path := [Key "title"];
                    raw_message := Some "Title must be text"%string |},
                 defaultErrorMap zt_string received)]
  | JUndefined | JNull | JBool _ | JNumber _ | JString _ | JArray _ =>
      inr [invalid [] zt_object (getParsedType data)]
  end.

Definition refining_validator : Validator := {|
  Shape := unit;
  validate := refined_validate;
  ZodError_message := fun e => String.concat JsString.nl (map issue_message (errors e));
|}.

(** Modelled from the spec: the entry of [AstroErrorData] for a failed
    schema validation, whose message builder is not in this module. The
    message reports the collection name, the entry id and the formatted
    messages of the issues, one per line. *)
#[export] Instance error_table : ErrorTable := {|
  MarkdownContentSchemaValidationError :=
    {| error_title := "Content collection frontmatter invalid.";
       error_code := 6002;
       error_hint := "See the guide on content collections." |};
  MarkdownContentSchemaValidationError_message := fun collection entryId error =>
    String.concat JsString.nl
      ((collection +:+ " / " +:+ entryId
          +:+ " frontmatter does not match collection schema.")
       :: map issue_message (errors error));
|}.

(** The schema and the entries of the examples: a required [title]. *)
Definition title_schema : list (string * FieldType) := [("title", z_string)]%string.

Definition blog : CollectionConfig :=
  {| cfg_schema := Some title_schema; cfg_slug := None |}.

Definition refined_blog : CollectionConfig (V := refining_validator) :=
  @Build_CollectionConfig refining_validator (Some tt) None.

Definition post (data : JsValue) : Entry :=
  {| entry_id := "first-post.md";
     entry_collection := "blog";
     entry_slug := "first-post";
     entry_data := data;
     entry_body := "Hello";
     entry_internal :=
       {| rawData := String.concat JsString.nl ["---"; "draft: true"; "title: 5"; "---"]%string;
          filePath := "/site/src/content/blog/first-post.md" |} |}.

(** A frontmatter library that rejects one file, at line 3 (0-based 2). *)
Definition broken_file : string :=
  String.concat JsString.nl ["---"; "title: a"; "  bad: : x"; "---"; "Hello"]%string.

Definition yaml_exception : JsError :=
  {| error_name := "YAMLException";
     error_message := "bad indentation of a mapping entry at line 3, column 8";
     error_reason := "bad indentation of a mapping entry";
     error_mark := Some {| mark_line := 2; mark_column := 7 |};
     error_id := None;
     error_loc := None |}.

#[export] Instance frontmatter_lib : FrontmatterLib := {|
  matter := fun fileContents =>
    if String.eqb fileContents broken_file then Throw (ThrownError yaml_exception)
    else Normal {| matter_data := JObject []; matter_content := fileContents |};
|}.

(** A front block that holds two documents: the YAML loader rejects it
    once it has read both, by an exception that has a reason and no
    mark. *)
Definition two_documents_file : string :=
  String.concat JsString.nl ["---"; "title: a"; "..."; "title: b"; "---"; "Hello"]%string.

Definition yaml_exception_without_mark : JsError :=
  {| error_name := "YAMLException";
     error_message := "expected a single document in the stream, but found more";
     error_reason := "expected a single document in the stream, but found more";
     error_mark := None;
     error_id := None;
     error_loc := None |}.

Definition frontmatter_lib_single_document : FrontmatterLib := {|
  matter := fun fileContents =>
    if String.eqb fileContents two_documents_file
    then Throw (ThrownError yaml_exception_without_mark)
    else Normal {| matter_data := JObject []; matter_content := fileContents |};
|}.

(** A platform whose file system is the list of the file names in the
    root directory. *)
Definition config_names : list string :=
  ["content.config.ts"; "content.config.js"; "content.config.mjs"]%string.

Definition strip_scheme (u : string) : string :=
  if String.prefix "file://" u then String.substring 7 (String.length u - 7) u
  else u.

#[export] Instance platform : Platform := {|
  URL := string;
  FileSystem := list string;
  Plugin := unit;
  fileURLToPath := strip_scheme;
  pathToFileURL := fun p => "file://" +:+ p;
  new_URL := fun rel base => base +:+ rel;
  pathname := strip_scheme;
  import_meta_url := "file:///astro/dist/content/utils.js";
  glob_sync := fun _ cwd fs =>
    map (fun name => cwd +:+ name)
        (List.filter (fun name => existsb (String.eqb name) config_names) fs);
|}.

#[export] Instance virtual_mod_plugin : VirtualModPlugin := {|
  astroContentVirtualModPlugin := fun _ => tt;
|}.

(** A configuration module exports the names of its collections, or
    something the parser refuses. *)
#[export] Instance config_module : ConfigModule := {|
  ModuleExports := option (list string);
  contentConfigParser_safeParse := fun exports =>
    match exports with
    | Some names =>
        ParseSuccess
          {| collections :=
               map (fun name => (name, {| cfg_schema := None; cfg_slug := None |}))
                   names |}
    | None =>
        ParseFailure
          {| errors := [{| issue_code := invalid_type zt_object zt_undefined;
                           issue_path := [Key "collections"];
                           issue_message := "Required" |}] |}
    end;
|}.

Definition settings : AstroSettings :=
  {| settings_config := {| srcDir := "file:///site/src/"; root := "file:///site/" |} |}.

Definition some_error : Thrown :=
  ThrownError {| error_name := "Error"; error_message := "failed";
                 error_reason := ""; error_mark := None;
                 error_id := None; error_loc := None |}.

(** A server that cannot be created. *)
Definition host_without_server : ViteHost :=
  {| createServer_result := fun _ => Throw some_error;
     ssrLoadModule_result := fun _ => Normal (Some ["blog"%string]);
     close_result := fun _ => Normal tt |}.

(** A server that loads the module and whose first [close] rejects. *)
Definition host_first_close_fails : ViteHost :=
  {| createServer_result := fun _ => Normal tt;
     ssrLoadModule_result := fun _ => Normal (Some ["blog"%string]);
     close_result := fun k => match k with O => Throw some_error | S _ => Normal tt end |}.

(** A server on which everything succeeds. *)
Definition host_ok : ViteHost :=
  {| createServer_result := fun _ => Normal tt;
     ssrLoadModule_result := fun _ => Normal (Some ["blog"%string]);
     close_result := fun _ => Normal tt |}.

(** Subscribers 0 and 1, registered in this order. *)
Definition two_subscribers : Store :=
  subscribe 1 (subscribe 0 (contentObservable status_loading)).

Definition not_found : ContentCtx := status_error NotFoundError.

(** Subscriber 0 answers the error context by setting [loading] again. *)
Definition resets_on_error : Callbacks := fun fn c =>
  match fn, c with
  | O, status_error _ => [call_set status_loading]
  | _, _ => []
  end.




(** A collection whose schema requires an [author], which the raw
    frontmatter of the example entry does not have. *)
Definition author_schema : list (string * FieldType) := [("author", z_string)]%string.

Definition signed_blog : CollectionConfig :=
  {| cfg_schema := Some author_schema; cfg_slug := None |}.

(** Subscriber 0 subscribes subscriber 2 when it is called. *)
Definition subscribes_another : Callbacks := fun fn _ =>
  match fn with
  | O => [call_subscribe 2]
  | S _ => []
  end.

End Examples.

(** ** The next steps of [create-astro]

    A shallow embedding of [packages/create-astro/src/actions/next-steps.ts]. *)

Module NextSteps.

(** What reading a property of an object literal gives: one of its own
    strings, or a member it inherits from [Object.prototype] (a function,
    or the prototype itself for [__proto__]). *)
Inductive PropertyValue : Type :=
  | OwnString (s : string)
  | Inherited (name : string).

Definition Object_prototype : list string :=
  ["constructor"; "__defineGetter__"; "__defineSetter__"; "hasOwnProperty";
   "__lookupGetter__"; "__lookupSetter__"; "isPrototypeOf";
   "propertyIsEnumerable"; "toString"; "valueOf"; "__proto__";
   "toLocaleString"]%string.

Fixpoint own_property (key : string) (entries : list (string * string))
  : option string :=
  match entries with
  | [] => None
  | (k, v) :: rest => if String.eqb k key then Some v else own_property key rest
  end.

(** [object[key]]: own properties first, then the prototype. *)
Definition property_of (entries : list (string * string)) (key : string)
  : option PropertyValue :=
  match own_property key entries with
  | Some v => Some (OwnString v)
  | None =>
      if existsb (String.eqb key) Object_prototype then Some (Inherited key)
      else None
  end.

(** [a || b]: [b] when [a] is [undefined] or the empty string. *)
Definition or_else (a : option PropertyValue) (b : PropertyValue) : PropertyValue :=
  match a with
  | Some (OwnString EmptyString) | None => b
  | Some v => v
  end.

Definition commandMap : list (string * string) :=
  [("npm", "npm run dev"); ("bun", "bun run dev");
   ("yarn", "yarn dev"); ("pnpm", "pnpm dev")]%string.

Definition devCmd (packageManager : string) : PropertyValue :=
  or_else (property_of commandMap packageManager) (OwnString "npm run dev").

Section Next.
(** The type of [hat] and [tie] is declared outside this file. *)
Variable Accessory : Type.

Record Context := {
  hat : Accessory;
  tie : Accessory;
  cwd : string;
  packageManager : string;
  skipHouston : bool;
}.

Record NextStepsArgs := {
  arg_projectDir : string;
  arg_devCmd : PropertyValue;
}.

Record SayOptions := {
  say_hat : Accessory;
  say_tie : Accessory;
}.

(** The calls made to [../messages.js], oldest first. *)
Inductive Event : Type :=
  | called_nextSteps (args : NextStepsArgs)
  | called_say (messages : list string) (options : SayOptions).

(** [node:path], the process, and how the two awaited calls end. *)
Record Host := {
  path_relative : string -> string -> string;
  process_cwd : string;
  nextSteps_result : NextStepsArgs -> Completion unit;
  say_result : list string -> SayOptions -> Completion unit;
}.

(** The text of the message; its last character, a rocket, is written as
    the four bytes of its UTF-8 encoding. *)
Definition good_luck : string :=
  "Good luck out there, astronaut! "
    +:+ String "240" (String "159" (String "154" (String "128" EmptyString))).

Definition next (h : Host) (ctx : Context) : Completion unit * list Event :=
  let projectDir := path_relative h (process_cwd h) (cwd ctx) in
  let args := {| arg_projectDir := projectDir;
                 arg_devCmd := devCmd (packageManager ctx) |} in
  match nextSteps_result h args with
  | Throw e => (Throw e, [called_nextSteps args])
  | Normal _ =>
      if negb (skipHouston ctx) then
        let options := {| say_hat := hat ctx; say_tie := tie ctx |} in
        match say_result h [good_luck] options with
        | Throw e =>
            (Throw e, [called_nextSteps args; called_say [good_luck] options])
        | Normal _ =>
            (Normal tt, [called_nextSteps args; called_say [good_luck] options])
        end
      else (Normal tt, [called_nextSteps args])
  end.

End Next.

End NextSteps.
(** * Properties *)

Module JsStringFacts.
Import JsString.

Lemma app_cons (c : ascii) (s t : string) :
  String c s +:+ t = String c (s +:+ t).
Proof. reflexivity. Qed.

Lemma app_nil (t : string) : EmptyString +:+ t = t.
Proof. reflexivity. Qed.

Lemma prefix_app (p s : string) :
  String.prefix p s = true <-> exists post, s = p +:+ post.
Proof.
  revert s. induction p as [|c p IH]; intros s.
  - destruct s; simpl; split; eauto.
  - destruct s as [|d s]; simpl.
    + split; [discriminate | intros [post H]; discriminate].
    + destruct (ascii_dec c d) as [->|Hne].
      * rewrite IH. split; intros [post H]; exists post.
        -- by rewrite H.
        -- rewrite app_cons in H. by injection H.
      * split; [discriminate | intros [post H]; inversion H; congruence].
Qed.

Lemma occurs_atb_spec (pat s : string) (i : nat) :
  occurs_atb pat s i = true <-> occurs_at pat s i.
Proof.
  revert s. induction i as [|i IH]; intros s.
  - change (occurs_atb pat s 0) with (String.prefix pat s).
    rewrite prefix_app. split.
    + intros [post ->]. by exists EmptyString, post.
    + intros (pre & post & -> & Hlen). destruct pre; [|discriminate]. eauto.
  - destruct s as [|c s].
    + split; [discriminate|]. intros (pre & post & H & Hlen).
      destruct pre; discriminate.
    + change (occurs_atb pat (String c s) (S i)) with (occurs_atb pat s i).
      rewrite IH. split.
      * intros (pre & post & -> & <-). by exists (String c pre), post.
      * intros (pre & post & H & Hlen). destruct pre as [|d pre]; [discriminate|].
        simpl in H, Hlen. injection H as -> ->. injection Hlen as <-.
        by exists pre, post.
Qed.

Lemma occurs_atb_false (pat s : string) (i : nat) :
  occurs_atb pat s i = false <-> ~ occurs_at pat s i.
Proof.
  rewrite <- occurs_atb_spec. destruct (occurs_atb pat s i); split; try done.
Qed.

(** [String.index 0] finds the first occurrence. *)
Lemma index_cons (pat : string) (c : ascii) (s : string) :
  String.index 0 pat (String c s) =
  if String.prefix pat (String c s) then Some 0 else S <$> String.index 0 pat s.
Proof.
  cbn [String.index]. destruct (String.prefix pat (String c s)); [done|].
  by destruct (String.index 0 pat s).
Qed.

Lemma index_nil (pat : string) :
  String.index 0 pat EmptyString =
  match pat with EmptyString => Some 0 | String _ _ => None end.
Proof. done. Qed.

Lemma index_Some (pat s : string) (i : nat) :
  String.index 0 pat s = Some i ->
  occurs_atb pat s i = true /\ forall j, j < i -> occurs_atb pat s j = false.
Proof.
  revert i. induction s as [|c s IH]; intros i.
  - rewrite index_nil. destruct pat; [|discriminate].
    intros [= <-]. split; [done | lia].
  - rewrite index_cons. destruct (String.prefix pat (String c s)) eqn:Hp.
    + intros [= <-]. split; [done | lia].
    + destruct (String.index 0 pat s) as [k|]; [|discriminate].
      intros [= <-]. destruct (IH k eq_refl) as [Hk Hmin]. split; [done|].
      intros [|j] Hj; [done | apply Hmin; lia].
Qed.

Lemma index_None (pat s : string) :
  String.index 0 pat s = None -> forall i, occurs_atb pat s i = false.
Proof.
  induction s as [|c s IH].
  - rewrite index_nil. destruct pat; [discriminate|]. intros _ [|i]; done.
  - rewrite index_cons.
    destruct (String.prefix pat (String c s)) eqn:Hp; [discriminate|].
    destruct (String.index 0 pat s); [discriminate|].
    intros _ [|i]; [done | by apply IH].
Qed.

Lemma index_first_occurrence (pat s : string) (i : nat) :
  String.index 0 pat s = Some i -> first_occurrence pat s i.
Proof.
  intros H. destruct (index_Some _ _ _ H) as [Hi Hmin]. split.
  - by apply occurs_atb_spec.
  - intros j Hj. apply occurs_atb_false. by apply Hmin.
Qed.

Lemma split_length (sep : ascii) (s : string) :
  length (split sep s) = S (count_char sep s).
Proof.
  induction s as [|c s IH]; simpl; [done|].
  destruct (Ascii.eqb c sep); simpl; [by rewrite IH|].
  destruct (split sep s); simpl in *; [discriminate | done].
Qed.

Lemma substring_0_length (s : string) (n : nat) :
  String.length s <= n -> String.substring 0 n s = s.
Proof.
  revert n. induction s as [|c s IH]; intros [|n] Hn; simpl in *; try done; try lia.
  f_equal. apply IH. lia.
Qed.

Lemma substring_0_app (pre post : string) :
  String.substring 0 (String.length pre) (pre +:+ post) = pre.
Proof.
  induction pre as [|c pre IH]; [by destruct post|].
  rewrite app_cons. simpl. by f_equal.
Qed.

Lemma app_assoc_String (pre : string) (c : ascii) (rest : string) :
  pre +:+ String c rest = (pre +:+ String c EmptyString) +:+ rest.
Proof.
  induction pre as [|d pre IH]; [done|]. rewrite !app_cons. by f_equal.
Qed.

Lemma length_app (s t : string) :
  String.length (s +:+ t) = String.length s + String.length t.
Proof.
  induction s as [|d s IH]; [done|]. rewrite app_cons. simpl. by f_equal.
Qed.

Lemma count_char_app (c : ascii) (s t : string) :
  count_char c (s +:+ t) = count_char c s + count_char c t.
Proof.
  induction s as [|d s IH]; [done|]. rewrite app_cons. simpl. rewrite IH. lia.
Qed.

Lemma occurs_at_length (pat s : string) (i : nat) :
  occurs_at pat s i -> i + String.length pat <= String.length s.
Proof.
  intros (pre & post & -> & <-). rewrite !length_app. lia.
Qed.

(** The text up to and including the line break that precedes the key. *)
Lemma substring_upto_break (s key : string) (i : nat) :
  occurs_at (String newline key) s i ->
  exists pre, String.length pre = i /\
    String.substring 0 (S i) s = pre +:+ String newline EmptyString.
Proof.
  intros (pre & post & -> & <-). exists pre. split; [done|].
  rewrite app_cons, app_assoc_String.
  replace (S (String.length pre))
    with (String.length (pre +:+ String newline EmptyString))
    by (rewrite length_app; simpl; lia).
  apply substring_0_app.
Qed.

Lemma js_substring_prefix (s : string) (n : nat) :
  substring s 0 (Z.of_nat n) = String.substring 0 n s.
Proof.
  unfold substring.
  destruct (Nat.le_gt_cases n (String.length s)) as [Hle|Hgt].
  - replace (Z.min (Z.max 0 0) _) with 0%Z by lia.
    replace (Z.min (Z.max (Z.of_nat n) 0) _) with (Z.of_nat n) by lia.
    replace (Z.min 0 (Z.of_nat n)) with 0%Z by lia.
    replace (Z.max 0 (Z.of_nat n) - 0)%Z with (Z.of_nat n) by lia.
    by rewrite Nat2Z.id.
  - replace (Z.min (Z.max 0 0) _) with 0%Z by lia.
    replace (Z.min (Z.max (Z.of_nat n) 0) _)
      with (Z.of_nat (String.length s)) by lia.
    replace (Z.min 0 _) with 0%Z by lia.
    replace (Z.max 0 (Z.of_nat (String.length s)) - 0)%Z
      with (Z.of_nat (String.length s)) by lia.
    rewrite Nat2Z.id. simpl.
    rewrite !substring_0_length; [done | lia | lia].
Qed.

End JsStringFacts.

Section Locator.
Import JsString JsStringFacts.

Lemma locator_found (raw key : string) (i : nat) :
  String.index 0 (String newline key) raw = Some i ->
  getFrontmatterErrorLine raw key = Z.of_nat (line_number raw (S i)).
Proof.
  intros Hidx. unfold getFrontmatterErrorLine, indexOf. rewrite Hidx.
  destruct (Z.eqb_spec (Z.of_nat i) (-1)) as [Hneg|_]; [lia|].
  replace (Z.of_nat i + 1)%Z with (Z.of_nat (S i)) by lia.
  by rewrite js_substring_prefix, split_length.
Qed.

Lemma locator_not_found (raw key : string) :
  String.index 0 (String newline key) raw = None ->
  getFrontmatterErrorLine raw key = 0%Z.
Proof.
  intros Hidx. unfold getFrontmatterErrorLine, indexOf. by rewrite Hidx.
Qed.

Lemma line_number_after_break (raw key : string) (i : nat) :
  occurs_at (String newline key) raw i ->
  line_number raw (S i) = S (S (count_char newline (String.substring 0 i raw))).
Proof.
  intros (pre & post & -> & <-). unfold line_number.
  rewrite substring_0_app, app_cons, app_assoc_String.
  replace (S (String.length pre))
    with (String.length (pre +:+ String newline EmptyString))
    by (rewrite length_app; simpl; lia).
  rewrite substring_0_app, count_char_app. simpl. lia.
Qed.

End Locator.

Section LocatorClaims.
Import JsString JsStringFacts.

Lemma only_at_start_not_found (raw key : string) :
  occurs_only_at_start key raw = true ->
  String.index 0 (String newline key) raw = None.
Proof.
  intros Hstart.
  destruct (String.index 0 (String newline key) raw) as [i|] eqn:Hidx; [|done].
  exfalso. destruct (index_first_occurrence _ _ _ Hidx) as [Hocc _].
  pose proof (occurs_at_length _ _ _ Hocc) as Hlen. simpl in Hlen.
  assert (occurs_atb key raw (S i) = true) as Hkey.
  { apply occurs_atb_spec. destruct Hocc as (pre & post & -> & <-).
    exists (pre +:+ nl), post. split.
    - by rewrite app_cons, app_assoc_String.
    - rewrite length_app. simpl. lia. }
  unfold occurs_only_at_start in Hstart.
  rewrite forallb_forall in Hstart.
  specialize (Hstart i). rewrite Hkey in Hstart.
  discriminate Hstart. apply in_seq. lia.
Qed.

(** C4. For every raw frontmatter and key, the locator either finds the
    first place where a line break is followed by the key, and returns the
    1-based number of the line the key begins on, which is the number of
    line breaks up to and including that place plus one; or the key starts
    no line after the first and the locator returns 0. It returns 0
    whenever no line break is followed by the key. On the four-line
    example the key [title] is on line 2. *)
Theorem getFrontmatterErrorLine_line_of_key (raw key : string) :
  ((exists i,
       first_occurrence (String newline key) raw i
       /\ getFrontmatterErrorLine raw key = Z.of_nat (line_number raw (S i))
       /\ getFrontmatterErrorLine raw key
          = (Z.of_nat (count_char newline (String.substring 0 (S i) raw)) + 1)%Z)
   \/ ((forall i, ~ occurs_at (String newline key) raw i)
       /\ getFrontmatterErrorLine raw key = 0%Z))
  /\ ((forall i, ~ occurs_at (String newline key) raw i) ->
      getFrontmatterErrorLine raw key = 0%Z)
  /\ getFrontmatterErrorLine example_frontmatter "title" = 2%Z
  /\ getFrontmatterErrorLine example_frontmatter "missingKey" = 0%Z.
Proof.
  split; [|split; [|split; reflexivity]].
  - destruct (String.index 0 (String newline key) raw) as [i|] eqn:Hidx.
    + left. exists i. split; [by apply index_first_occurrence|].
      rewrite (locator_found _ _ _ Hidx). split; [done|].
      unfold line_number. lia.
    + right. split; [|by apply locator_not_found].
      intros i. apply occurs_atb_false. by apply index_None.
  - intros Hnone.
    destruct (String.index 0 (String newline key) raw) as [i|] eqn:Hidx;
      [|by apply locator_not_found].
    destruct (index_first_occurrence _ _ _ Hidx) as [Hocc _].
    by destruct (Hnone i).
Qed.

Lemma getFrontmatterErrorLine_line_of_key_witness :
  (forall i, ~ occurs_at (String newline "missingKey") example_frontmatter i)
  /\ getFrontmatterErrorLine example_frontmatter "missingKey" = 0%Z.
Proof.
  assert (Hnone : forall i,
             ~ occurs_at (String newline "missingKey") example_frontmatter i).
  { intros i. apply occurs_atb_false. apply index_None. reflexivity. }
  split; [exact Hnone|].
  exact (proj1 (proj2 (getFrontmatterErrorLine_line_of_key
                         example_frontmatter "missingKey")) Hnone).
Defined.

(** C10. The locator never returns 1: its result is 0 or at least 2. A key
    that occurs in the raw frontmatter only at offset 0, where no line
    break precedes it, is reported as 0. *)
Theorem getFrontmatterErrorLine_never_one (raw key : string) :
  (getFrontmatterErrorLine raw key = 0%Z
   \/ (2 <= getFrontmatterErrorLine raw key)%Z)
  /\ (String.prefix key raw = true ->
      occurs_only_at_start key raw = true ->
      getFrontmatterErrorLine raw key = 0%Z).
Proof.
  split.
  - destruct (String.index 0 (String newline key) raw) as [i|] eqn:Hidx.
    + right. rewrite (locator_found _ _ _ Hidx).
      destruct (index_first_occurrence _ _ _ Hidx) as [Hocc _].
      rewrite (line_number_after_break _ _ _ Hocc). lia.
    + left. by apply locator_not_found.
  - intros _ Hstart. apply locator_not_found.
    by apply only_at_start_not_found.
Qed.

Lemma getFrontmatterErrorLine_never_one_witness :
  String.prefix "title" (String.concat nl ["title: 5"; "body: x"]%string) = true
  /\ occurs_only_at_start "title"
       (String.concat nl ["title: 5"; "body: x"]%string) = true
  /\ getFrontmatterErrorLine
       (String.concat nl ["title: 5"; "body: x"]%string) "title" = 0%Z.
Proof.
  split; [reflexivity|]. split; [reflexivity|].
  apply (getFrontmatterErrorLine_never_one
           (String.concat nl ["title: 5"; "body: x"]%string) "title");
    reflexivity.
Defined.

End LocatorClaims.

(** ** The error map and the schema validator *)

Module JsFacts.
Import Js JsStringFacts.

Lemma quote_unit_plain (c : ascii) :
  plain c = true -> quote_unit c = String c EmptyString.
Proof.
  unfold plain, quote_unit. intros H.
  apply andb_prop in H as [H H92]. apply andb_prop in H as [H32 H34].
  apply negb_true_iff in H32, H34, H92.
  apply Nat.ltb_ge in H32. apply Nat.eqb_neq in H34, H92.
  repeat match goal with
         | |- context [?n =? ?k] =>
             destruct (Nat.eqb_spec n k) as [Heq|_]; [lia|]
         end.
  destruct (Nat.ltb_spec (nat_of_ascii c) 32); [lia | done].
Qed.

Lemma quote_units_plain (s : string) :
  all_plain s = true -> quote_units s = s.
Proof.
  induction s as [|c s IH]; [done|]. simpl. intros H.
  apply andb_prop in H as [Hc Hs].
  by rewrite (quote_unit_plain _ Hc), IH.
Qed.

(** A text without quotes, backslashes or control characters is rendered
    between double quotes as it is. *)
Lemma JSON_stringify_plain (s : string) :
  all_plain s = true -> JSON_stringify s = in_quotes s.
Proof.
  intros H. unfold JSON_stringify, in_quotes. by rewrite quote_units_plain.
Qed.

Lemma received_undefined (t : ZodParsedType) :
  String.eqb (ZodParsedType_toString t) "undefined" = true <-> t = zt_undefined.
Proof. destruct t; simpl; split; (done || discriminate). Qed.

End JsFacts.

Section ErrorMap.
Import Js JsFacts.

Lemma errorMap_required (path : list PathSegment) (expected : ZodParsedType)
    (m : option string) (ctx : ErrorMapCtx) :
  message (errorMap {| raw_code := invalid_type expected zt_undefined;
                       raw_path := path; raw_message := m |} ctx)
  = JSON_stringify (flattenPath path) +:+ " is required.".
Proof. reflexivity. Qed.

Lemma errorMap_wrong_type (path : list PathSegment)
    (expected received : ZodParsedType) (m : option string) (ctx : ErrorMapCtx) :
  received <> zt_undefined ->
  message (errorMap {| raw_code := invalid_type expected received;
                       raw_path := path; raw_message := m |} ctx)
  = JSON_stringify (flattenPath path) +:+ " should be "
      +:+ ZodParsedType_toString expected +:+ ", not "
      +:+ ZodParsedType_toString received +:+ ".".
Proof.
  intros Hne. unfold errorMap. simpl.
  destruct (String.eqb (ZodParsedType_toString received) "undefined") eqn:E;
    [|done].
  by apply received_undefined in E.
Qed.

Lemma errorMap_other (path : list PathSegment) (code : ZodOtherCode)
    (m : option string) (ctx : ErrorMapCtx) :
  message (errorMap {| raw_code := other_code code;
                       raw_path := path; raw_message := m |} ctx)
  = defaultError ctx.
Proof. reflexivity. Qed.

End ErrorMap.

Section ErrorMapClaim.
Import Js JsFacts Examples.

(** The wording of one issue: its own message when it brings one, and
    else what [errorMap] says. *)
Lemma makeIssue_errorMap `{V : Validator}
    (raised : ZodIssueOptionalMessage * string) :
  let issue := makeIssue errorMap raised in
  let badKeyPath := JSON_stringify (flattenPath (raw_path raised.1)) in
  issue_code issue = raw_code raised.1
  /\ issue_path issue = raw_path raised.1
  /\ (forall own, raw_message raised.1 = Some own -> issue_message issue = own)
  /\ (raw_message raised.1 = None ->
      (forall expected,
          raw_code raised.1 = invalid_type expected zt_undefined ->
          issue_message issue = badKeyPath +:+ " is required.")
      /\ (forall expected received,
            raw_code raised.1 = invalid_type expected received ->
            received <> zt_undefined ->
            issue_message issue
            = badKeyPath +:+ " should be "
                +:+ ZodParsedType_toString expected +:+ ", not "
                +:+ ZodParsedType_toString received +:+ ".")
      /\ (forall code,
            raw_code raised.1 = other_code code ->
            issue_message issue = raised.2)).
Proof.
  destruct raised as [[code path own] dflt]. simpl.
  split; [done|]. split; [done|]. split; [by intros ? ->|].
  intros ->. split; [|split].
  - intros expected ->. apply errorMap_required.
  - intros expected received -> Hne. by apply errorMap_wrong_type.
  - intros other ->. apply errorMap_other.
Qed.

(** C1, as the code has it. When the validation of an entry against the
    declared schema fails, [getEntryData] rejects with the
    schema-validation error whose message is built from the issues of
    the validation, in order, each worded this way: an issue that brings
    a message of its own keeps it; a wrong-type issue that brings none
    is worded [<field-path> is required.] when the received value is
    absent and [<field-path> should be <expected>, not <received>.] when
    it is present; an issue of another code that brings none keeps the
    library's default message. The field path is the path segments
    joined by dots, rendered as a JSON string, that is between double
    quotes. On the two examples the issues are worded as announced. *)
Theorem getEntryData_wrong_type_messages `{V : Validator} `{T : ErrorTable}
    (entry : Entry) (collectionConfig : CollectionConfig) (schema : Shape)
    (first : ZodIssueOptionalMessage * string)
    (rest : list (ZodIssueOptionalMessage * string)) :
  cfg_schema collectionConfig = Some schema ->
  validate schema (entry_data entry) = inr (first :: rest) ->
  (exists error location,
     getEntryData entry collectionConfig
     = Rejected (ThrownAstroError
         {| astro_data := MarkdownContentSchemaValidationError;
            astro_message :=
              MarkdownContentSchemaValidationError_message
                (entry_collection entry) (entry_id entry) error;
            astro_location := location |})
     /\ Forall2
          (fun raised issue =>
             let badKeyPath := JSON_stringify (flattenPath (raw_path raised.1)) in
             issue_code issue = raw_code raised.1
             /\ issue_path issue = raw_path raised.1
             /\ (forall own, raw_message raised.1 = Some own ->
                             issue_message issue = own)
             /\ (raw_message raised.1 = None ->
                 (forall expected,
                     raw_code raised.1 = invalid_type expected zt_undefined ->
                     issue_message issue = badKeyPath +:+ " is required.")
                 /\ (forall expected received,
                       raw_code raised.1 = invalid_type expected received ->
                       received <> zt_undefined ->
                       issue_message issue
                       = badKeyPath +:+ " should be "
                           +:+ ZodParsedType_toString expected +:+ ", not "
                           +:+ ZodParsedType_toString received +:+ ".")
                 /\ (forall code,
                       raw_code raised.1 = other_code code ->
                       issue_message issue = raised.2)))
          (first :: rest) (errors error))
  /\ (forall path,
        flattenPath path = String.concat "." (map PathSegment_toString path)
        /\ (all_plain (flattenPath path) = true ->
            JSON_stringify (flattenPath path) = in_quotes (flattenPath path)))
  /\ (exists location,
        getEntryData (V := primitive_validator) (T := error_table)
          (post (JObject [])) blog
        = Rejected (ThrownAstroError
            {| astro_data := MarkdownContentSchemaValidationError (ErrorTable := error_table);
               astro_message :=
                 MarkdownContentSchemaValidationError_message
                   (ErrorTable := error_table) "blog" "first-post.md"
                   {| errors :=
                        [{| issue_code := invalid_type zt_string zt_undefined;
                            issue_path := [Key "title"];
                            issue_message :=
                              in_quotes "title" +:+ " is required." |}] |};
               astro_location := location |}))
  /\ (exists location,
        getEntryData (V := primitive_validator) (T := error_table)
          (post (JObject [("title"%string, JNumber 5)])) blog
        = Rejected (ThrownAstroError
            {| astro_data := MarkdownContentSchemaValidationError (ErrorTable := error_table);
               astro_message :=
                 MarkdownContentSchemaValidationError_message
                   (ErrorTable := error_table) "blog" "first-post.md"
                   {| errors :=
                        [{| issue_code := invalid_type zt_string zt_number;
                            issue_path := [Key "title"];
                            issue_message :=
                              in_quotes "title"
                                +:+ " should be string, not number." |}] |};
               astro_location := location |})).
Proof.
  intros Hs Hv. split; [|split; [|split]].
  - exists {| errors := map (makeIssue errorMap) (first :: rest) |}.
    eexists. split.
    + unfold getEntryData, safeParseAsync. rewrite Hs, Hv.
      destruct first as [d dflt]. reflexivity.
    + clear Hv. generalize (first :: rest). intros l.
      induction l as [|r l IH]; simpl; constructor; [|done].
      apply makeIssue_errorMap.
  - intros path. split; [done | apply JSON_stringify_plain].
  - eexists. reflexivity.
  - eexists. reflexivity.
Qed.

(** A wrong-type issue that brings its own message is not worded by the
    templates: the refinement's issue keeps its message. *)
Lemma getEntryData_own_message_counterexample :
  exists location,
    getEntryData (V := refining_validator) (T := error_table)
      (post (JObject [("title"%string, JNumber 5)])) refined_blog
    = Rejected (ThrownAstroError
        {| astro_data := MarkdownContentSchemaValidationError;
           astro_message :=
             MarkdownContentSchemaValidationError_message
               "blog" "first-post.md"
               {| errors :=
                    [{| issue_code := invalid_type zt_string zt_number;
                        issue_path := [Key "title"];
                        issue_message := "Title must be text" |}] |};
           astro_location := location |})
    /\ "Title must be text"%string
       <> in_quotes "title" +:+ " should be string, not number.".
Proof.
  eexists. split; [reflexivity | discriminate].
Qed.

Lemma getEntryData_wrong_type_messages_witness :
  exists error location,
    getEntryData (V := primitive_validator) (T := error_table)
      (post (JObject [("title"%string, JBool true)])) blog
    = Rejected (ThrownAstroError
        {| astro_data := MarkdownContentSchemaValidationError;
           astro_message :=
             MarkdownContentSchemaValidationError_message
               "blog" "first-post.md" error;
           astro_location := location |})
    /\ exists issue,
         errors error = [issue]
         /\ issue_message issue
            = in_quotes "title" +:+ " should be string, not boolean.".
Proof.
  destruct (proj1 (getEntryData_wrong_type_messages
              (V := primitive_validator) (T := error_table)
              (post (JObject [("title"%string, JBool true)])) blog title_schema
              (invalid [Key "title"] zt_string zt_boolean) []
              eq_refl eq_refl))
    as (error & location & Hrun & Hissues).
  exists error, location. split; [exact Hrun|].
  destruct (errors error) as [|issue [|issue' issues]] eqn:Herrors.
  - exfalso. inversion Hissues.
  - exists issue. split; [reflexivity|].
    apply Forall2_cons_1 in Hissues as [(_ & _ & _ & Hwording) _].
    destruct (Hwording eq_refl) as (_ & Hpresent & _).
    rewrite (Hpresent zt_string zt_boolean eq_refl); [reflexivity | discriminate].
  - exfalso. apply Forall2_cons_1 in Hissues as [_ Hrest]. inversion Hrest.
Defined.

End ErrorMapClaim.

(** C2. When the validation of an entry against the declared schema
    fails, [getEntryData] rejects with the schema-validation error whose
    message is built from the collection name, the entry id and the issues
    with their formatted messages, and whose location is the entry's file,
    the line the locator gives for the raw frontmatter and the first
    segment of the first issue's path, and column 0. *)
Theorem getEntryData_error_location `{V : Validator} `{T : ErrorTable}
    (entry : Entry) (collectionConfig : CollectionConfig)
    (schema : Shape) (first : ZodIssueOptionalMessage * string)
    (rest : list (ZodIssueOptionalMessage * string)) :
  cfg_schema collectionConfig = Some schema ->
  validate schema (entry_data entry) = inr (first :: rest) ->
  getEntryData entry collectionConfig
  = Rejected (ThrownAstroError
      {| astro_data := MarkdownContentSchemaValidationError;
         astro_message :=
           MarkdownContentSchemaValidationError_message
             (entry_collection entry) (entry_id entry)
             {| errors := map (makeIssue errorMap) (first :: rest) |};
         astro_location :=
           {| loc_file := Some (filePath (entry_internal entry));
              loc_line :=
                getFrontmatterErrorLine (rawData (entry_internal entry))
                  (Js.String_ (raw_path first.1 !! 0));
              loc_column := 0 |} |}).
Proof.
  intros Hs Hv. unfold getEntryData, safeParseAsync. rewrite Hs, Hv.
  destruct first as [d dflt]. reflexivity.
Qed.

Lemma getEntryData_error_location_witness :
  exists e,
    getEntryData (V := Examples.primitive_validator) (T := Examples.error_table)
      (Examples.post (JObject [("title"%string, JNumber 5)])) Examples.blog
    = Rejected (ThrownAstroError e)
    /\ astro_location e
       = {| loc_file := Some "/site/src/content/blog/first-post.md"%string;
            loc_line := 3; loc_column := 0 |}.
Proof.
  eexists. split.
  - apply (getEntryData_error_location
             (V := Examples.primitive_validator) (T := Examples.error_table)
             (Examples.post (JObject [("title"%string, JNumber 5)]))
             Examples.blog Examples.title_schema
             (Examples.invalid [Key "title"] zt_string zt_number) []);
      reflexivity.
  - reflexivity.
Defined.

(** C7. With no schema in the collection configuration, [getEntryData]
    resolves to the entry's data itself, whatever the validator, the error
    table and the slug function are. *)
Theorem getEntryData_without_schema `{V : Validator} `{T : ErrorTable}
    (entry : Entry) (collectionConfig : CollectionConfig) :
  cfg_schema collectionConfig = None ->
  getEntryData entry collectionConfig = Fulfilled (entry_data entry).
Proof.
  intros Hschema. unfold getEntryData. rewrite Hschema. reflexivity.
Qed.

Lemma getEntryData_without_schema_witness :
  getEntryData (V := Examples.primitive_validator) (T := Examples.error_table)
    (Examples.post (JObject [("title"%string, JNumber 5)]))
    {| cfg_schema := None; cfg_slug := None |}
  = Fulfilled (JObject [("title"%string, JNumber 5)]).
Proof.
  apply (getEntryData_without_schema
           (V := Examples.primitive_validator) (T := Examples.error_table)
           (Examples.post (JObject [("title"%string, JNumber 5)]))
           {| cfg_schema := None; cfg_slug := None |}).
  reflexivity.
Defined.

(** C8. With a slug function, [getEntrySlug] calls it with the entry's id
    and data, the entry's slug as [defaultSlug], the collection and the
    body, and settles as the awaited result: the string itself, or what
    the returned promise settles with; without one it resolves to the
    entry's slug. *)
Theorem getEntrySlug_result `{V : Validator}
    (entry : Entry) (schema : option Shape) (slug : SlugFunction) :
  let args := {| id := entry_id entry;
                 data := entry_data entry;
                 defaultSlug := entry_slug entry;
                 collection := entry_collection entry;
                 body := entry_body entry |} in
  getEntrySlug entry {| cfg_schema := schema; cfg_slug := None |}
  = Fulfilled (entry_slug entry)
  /\ (forall s, slug args = Normal (SlugString s) ->
        getEntrySlug entry {| cfg_schema := schema; cfg_slug := Some slug |}
        = Fulfilled s)
  /\ (forall p, slug args = Normal (SlugPromise p) ->
        getEntrySlug entry {| cfg_schema := schema; cfg_slug := Some slug |} = p)
  /\ (forall e, slug args = Throw e ->
        getEntrySlug entry {| cfg_schema := schema; cfg_slug := Some slug |}
        = Rejected e).
Proof.
  intros args. split; [reflexivity|].
  repeat split; intros x Hx; unfold getEntrySlug, optional_call; simpl;
    fold args; by rewrite Hx.
Qed.

Lemma getEntrySlug_result_witness :
  getEntrySlug (V := Examples.primitive_validator) (Examples.post (JObject []))
    {| cfg_schema := None;
       cfg_slug := Some (fun a =>
         Normal (SlugPromise (Fulfilled (collection a +:+ "/" +:+ defaultSlug a)))) |}
  = Fulfilled "blog/first-post"%string.
Proof.
  apply (getEntrySlug_result (V := Examples.primitive_validator)
           (Examples.post (JObject [])) None
           (fun a => Normal (SlugPromise
                       (Fulfilled (collection a +:+ "/" +:+ defaultSlug a))))).
  reflexivity.
Defined.

(** ** The frontmatter parser *)

(** X21. When the frontmatter library throws a YAML exception that
    carries a mark, [parseFrontmatter] throws that exception with [id]
    set to the file path, [message] set to the parser's reason, and [loc]
    set to the file, the line of the parser's mark plus one, and the
    mark's column. *)
Theorem parseFrontmatter_yaml_exception `{F : FrontmatterLib}
    (fileContents filePath : string) (e : JsError) (mark : Mark) :
  matter fileContents = Throw (ThrownError e) ->
  error_name e = "YAMLException"%string ->
  error_mark e = Some mark ->
  exists err,
    parseFrontmatter fileContents filePath = Throw (ThrownError err)
    /\ error_name err = "YAMLException"%string
    /\ error_id err = Some filePath
    /\ error_message err = error_reason e
    /\ error_loc err
       = Some {| loc_file := Some filePath;
                 loc_line := mark_line mark + 1;
                 loc_column := mark_column mark |}.
Proof.
  intros Hm Hname Hmark. unfold parseFrontmatter. rewrite Hm, Hname. simpl.
  rewrite Hmark. eexists. split; [reflexivity|]. by simpl.
Qed.

Lemma parseFrontmatter_yaml_exception_witness :
  exists err,
    parseFrontmatter (F := Examples.frontmatter_lib)
      Examples.broken_file "/site/src/content/blog/broken.md"
    = Throw (ThrownError err)
    /\ error_name err = "YAMLException"%string
    /\ error_id err = Some "/site/src/content/blog/broken.md"%string
    /\ error_message err = "bad indentation of a mapping entry"%string
    /\ error_loc err
       = Some {| loc_file := Some "/site/src/content/blog/broken.md"%string;
                 loc_line := 3; loc_column := 7 |}.
Proof.
  apply (parseFrontmatter_yaml_exception (F := Examples.frontmatter_lib)
           Examples.broken_file "/site/src/content/blog/broken.md"
           Examples.yaml_exception {| mark_line := 2; mark_column := 7 |});
    reflexivity.
Defined.

(** C5, where the code fails it. For a front block of two documents the
    YAML loader throws an exception named [YAMLException] that has a
    reason and no mark. [parseFrontmatter] then reads the line of the
    absent mark, and what it throws is the type error of that read: not
    an error whose [id] is the file path, whose message is the parser's
    reason, or that has a location. *)
Theorem parseFrontmatter_yaml_exception_without_mark :
  matter (FrontmatterLib := Examples.frontmatter_lib_single_document)
    Examples.two_documents_file
  = Throw (ThrownError Examples.yaml_exception_without_mark)
  /\ error_name Examples.yaml_exception_without_mark = "YAMLException"%string
  /\ parseFrontmatter (F := Examples.frontmatter_lib_single_document)
       Examples.two_documents_file "/site/src/content/blog/two.md"
     = Throw (TypeError "Cannot read properties of undefined")
  /\ ~ (exists err,
          parseFrontmatter (F := Examples.frontmatter_lib_single_document)
            Examples.two_documents_file "/site/src/content/blog/two.md"
          = Throw (ThrownError err)
          /\ (error_id err = Some "/site/src/content/blog/two.md"%string
              \/ error_message err
                 = error_reason Examples.yaml_exception_without_mark
              \/ error_loc err <> None)).
Proof.
  split; [reflexivity|]. split; [reflexivity|]. split; [reflexivity|].
  intros (err & Hrun & Herr). injection Hrun as <-.
  destruct Herr as [Hid|[Hmsg|Hloc]]; [discriminate | discriminate | done].
Qed.

(** ** The configuration loader *)

Section LoaderFacts.
Context `{V : Validator} `{C : @ConfigModule V} `{P : Platform}
        `{VP : @VirtualModPlugin P}.

Ltac run_loader Hc :=
  unfold config_of in Hc;
  unfold run_loadContentConfig, loadContentConfig; rewrite Hc;
  unfold bind, try_catch, ret, createServer, ssrLoadModule, close, no_server;
  unfold server_options in *; cbn [tempConfigServer close_calls].

Lemma load_no_config (h : ViteHost) (fs : FileSystem) (settings : AstroSettings) :
  config_of fs settings = None ->
  run_loadContentConfig h fs settings = (Normal (inr NotFoundError), no_server).
Proof. intros Hc. by run_loader Hc. Qed.

Lemma load_create_throws (h : ViteHost) (fs : FileSystem)
    (settings : AstroSettings) (u : URL) (e : Thrown) :
  config_of fs settings = Some u ->
  createServer_result h (server_options settings) = Throw e ->
  run_loadContentConfig h fs settings = (Throw e, no_server).
Proof.
  intros Hc Hs. run_loader Hc. by rewrite Hs.
Qed.

Lemma load_module_ok (h : ViteHost) (fs : FileSystem)
    (settings : AstroSettings) (u : URL) (m : ModuleExports) :
  config_of fs settings = Some u ->
  createServer_result h (server_options settings) = Normal tt ->
  ssrLoadModule_result h (pathname u) = Normal m ->
  close_result h 0 = Normal tt ->
  run_loadContentConfig h fs settings = (Normal (parsed m), closed_after 1).
Proof.
  intros Hc Hs Hm Hcl. run_loader Hc. rewrite Hs, Hm. simpl. rewrite Hcl.
  unfold parsed. by destruct (contentConfigParser_safeParse m).
Qed.

Lemma load_module_throws (h : ViteHost) (fs : FileSystem)
    (settings : AstroSettings) (u : URL) (e : Thrown) :
  config_of fs settings = Some u ->
  createServer_result h (server_options settings) = Normal tt ->
  ssrLoadModule_result h (pathname u) = Throw e ->
  run_loadContentConfig h fs settings
  = match close_result h 0 with
    | Normal _ => (Normal (inr NotFoundError), closed_after 1)
    | Throw e' => (Throw e', open_after 1)
    end.
Proof.
  intros Hc Hs Hm. run_loader Hc. rewrite Hs, Hm. simpl.
  by destruct (close_result h 0).
Qed.

Lemma load_first_close_throws (h : ViteHost) (fs : FileSystem)
    (settings : AstroSettings) (u : URL) (m : ModuleExports) (e : Thrown) :
  config_of fs settings = Some u ->
  createServer_result h (server_options settings) = Normal tt ->
  ssrLoadModule_result h (pathname u) = Normal m ->
  close_result h 0 = Throw e ->
  run_loadContentConfig h fs settings
  = match close_result h 1 with
    | Normal _ => (Normal (inr NotFoundError), closed_after 2)
    | Throw e' => (Throw e', open_after 2)
    end.
Proof.
  intros Hc Hs Hm Hcl. run_loader Hc. rewrite Hs, Hm. simpl. rewrite Hcl.
  simpl. by destruct (close_result h 1).
Qed.

End LoaderFacts.

Section LoaderClaims.
Context `{V : Validator} `{C : @ConfigModule V} `{P : Platform}
        `{VP : @VirtualModPlugin P}.

(** Every run of the loader is one of the cases of the lemmas above. *)
Lemma load_cases (h : ViteHost) (fs : FileSystem) (settings : AstroSettings) :
  let r := run_loadContentConfig h fs settings in
  (config_of fs settings = None /\ r = (Normal (inr NotFoundError), no_server))
  \/ (exists u e,
        config_of fs settings = Some u
        /\ createServer_result h (server_options settings) = Throw e
        /\ r = (Throw e, no_server))
  \/ (exists u k v,
        config_of fs settings = Some u
        /\ createServer_result h (server_options settings) = Normal tt
        /\ close_result h k = Normal tt
        /\ r = (Normal v, closed_after (S k)))
  \/ (exists u k e,
        config_of fs settings = Some u
        /\ createServer_result h (server_options settings) = Normal tt
        /\ k <= 1
        /\ close_result h k = Throw e
        /\ r = (Throw e, open_after (S k))).
Proof.
  intros r. subst r.
  destruct (config_of fs settings) as [u|] eqn:Hc;
    [|left; split; [done | by apply load_no_config]].
  right.
  destruct (createServer_result h (server_options settings)) as [[]|e] eqn:Hs;
    [|left; exists u, e; repeat split; by eapply load_create_throws].
  right.
  destruct (ssrLoadModule_result h (pathname u)) as [m|e] eqn:Hm.
  - destruct (close_result h 0) as [[]|e0] eqn:H0.
    + left. exists u, 0, (parsed m). repeat split; try done.
      by eapply load_module_ok.
    + rewrite (load_first_close_throws h fs settings u m e0 Hc Hs Hm H0).
      destruct (close_result h 1) as [[]|e1] eqn:H1.
      * left. by exists u, 1, (inr NotFoundError).
      * right. exists u, 1, e1. repeat split; (done || lia).
  - rewrite (load_module_throws h fs settings u e Hc Hs Hm).
    destruct (close_result h 0) as [[]|e0] eqn:H0.
    + left. by exists u, 0, (inr NotFoundError).
    + right. exists u, 0, e0. repeat split; (done || lia).
Qed.

(** C3, as the code has it. The loader returns the not-found error when no
    configuration file is found. When one is found, the server is created
    and its first teardown succeeds, the loader returns: the not-found
    error when the execution of the module throws; the parse error with
    the validator's message when the module's shape is refused; the
    validated configuration otherwise. When the teardown after a
    successful execution throws and the second teardown succeeds, it
    returns the not-found error. It throws only what the creation of the
    server or a teardown throws. *)
Theorem loadContentConfig_results (h : ViteHost) (fs : FileSystem)
    (settings : AstroSettings) :
  let r := run_loadContentConfig h fs settings in
  (config_of fs settings = None -> r.1 = Normal (inr NotFoundError))
  /\ (forall u,
        config_of fs settings = Some u ->
        createServer_result h (server_options settings) = Normal tt ->
        close_result h 0 = Normal tt ->
        (forall e, ssrLoadModule_result h (pathname u) = Throw e ->
                   r.1 = Normal (inr NotFoundError))
        /\ (forall m error,
              ssrLoadModule_result h (pathname u) = Normal m ->
              contentConfigParser_safeParse m = ParseFailure error ->
              r.1 = Normal (inr (ZodParseError (ZodError_message error))))
        /\ (forall m validated,
              ssrLoadModule_result h (pathname u) = Normal m ->
              contentConfigParser_safeParse m = ParseSuccess validated ->
              r.1 = Normal (inl validated)))
  /\ (forall u m e,
        config_of fs settings = Some u ->
        createServer_result h (server_options settings) = Normal tt ->
        ssrLoadModule_result h (pathname u) = Normal m ->
        close_result h 0 = Throw e ->
        close_result h 1 = Normal tt ->
        r.1 = Normal (inr NotFoundError))
  /\ (forall e,
        r.1 = Throw e ->
        createServer_result h (server_options settings) = Throw e
        \/ exists k, k <= 1 /\ close_result h k = Throw e).
Proof.
  intros r. subst r. split; [|split; [|split]].
  - intros Hc. by rewrite load_no_config.
  - intros u Hc Hs H0. split; [|split].
    + intros e Hm. by rewrite (load_module_throws h fs settings u e), H0.
    + intros m error Hm Hp.
      rewrite (load_module_ok h fs settings u m); try done.
      unfold parsed. by rewrite Hp.
    + intros m validated Hm Hp.
      rewrite (load_module_ok h fs settings u m); try done.
      unfold parsed. by rewrite Hp.
  - intros u m e Hc Hs Hm H0 H1.
    by rewrite (load_first_close_throws h fs settings u m e), H1.
  - intros e He.
    destruct (load_cases h fs settings)
      as [[_ Hr]|[(u & e' & _ & Hs & Hr)|[(u & k & v & _ & _ & _ & Hr)
         |(u & k & e' & _ & _ & Hk & Hcl & Hr)]]];
      rewrite Hr in He; simpl in He; try discriminate.
    + left. congruence.
    + right. exists k. split; [done | congruence].
Qed.

(** C9. A run of the loader that creates the server calls its teardown;
    whenever the loader returns, the server is not open; after the
    execution of the module, whether it succeeded or threw, a teardown
    that succeeds leaves the server closed and the loader returns; the
    server is left open only when a teardown itself throws, and then the
    loader throws what the teardown threw. *)
Theorem loadContentConfig_closes_server (h : ViteHost) (fs : FileSystem)
    (settings : AstroSettings) :
  let r := run_loadContentConfig h fs settings in
  (forall v, r.1 = Normal v -> tempConfigServer r.2 <> Open)
  /\ (tempConfigServer r.2 <> NotCreated -> 1 <= close_calls r.2)
  /\ (forall u,
        config_of fs settings = Some u ->
        createServer_result h (server_options settings) = Normal tt ->
        close_result h 0 = Normal tt ->
        tempConfigServer r.2 = Closed /\ exists v, r.1 = Normal v)
  /\ (tempConfigServer r.2 = Open ->
      exists e, r.1 = Throw e
                /\ close_result h (close_calls r.2 - 1) = Throw e).
Proof.
  intros r. subst r.
  destruct (load_cases h fs settings)
    as [[Hc Hr]|[(u & e & Hc & Hs & Hr)|[(u & k & v & Hc & Hs & Hcl & Hr)
       |(u & k & e & Hc & Hs & Hk & Hcl & Hr)]]];
    rewrite Hr; simpl; (split; [|split; [|split]]); try done; try lia;
    try congruence.
  - intros u' _ _ _. eauto.
  - intros u' Hc' _ H0. exfalso.
    destruct (ssrLoadModule_result h (pathname u')) as [m|e'] eqn:Hm.
    + by rewrite (load_module_ok h fs settings u' m Hc' Hs Hm H0) in Hr.
    + by rewrite (load_module_throws h fs settings u' e' Hc' Hs Hm), H0 in Hr.
  - intros _. exists e. split; [done|]. by rewrite Nat.sub_0_r.
Qed.

End LoaderClaims.

Section LoaderExamples.
Import Examples.

(** The loader throws when the server cannot be created, and it answers a
    module that loads and is valid by the not-found error when the first
    teardown throws. *)
Lemma loadContentConfig_never_throws_counterexample :
  (run_loadContentConfig host_without_server ["content.config.ts"%string] settings).1
  = Throw some_error
  /\ (forall v,
        (run_loadContentConfig host_without_server
           ["content.config.ts"%string] settings).1 <> Normal v)
  /\ ssrLoadModule_result host_first_close_fails "/site/content.config.ts"
     = Normal (Some ["blog"%string])
  /\ (exists validated,
        contentConfigParser_safeParse (Some ["blog"%string])
        = ParseSuccess validated)
  /\ (run_loadContentConfig host_first_close_fails
        ["content.config.ts"%string] settings).1
     = Normal (inr NotFoundError).
Proof.
  split; [reflexivity|]. split; [discriminate|]. split; [reflexivity|].
  split; [by eexists | reflexivity].
Qed.

Lemma loadContentConfig_results_witness :
  (run_loadContentConfig host_ok ["content.config.ts"%string] settings).1
  = Normal (inl {| collections :=
                     [("blog"%string, {| cfg_schema := None; cfg_slug := None |})] |}).
Proof.
  pose proof (loadContentConfig_results host_ok ["content.config.ts"%string]
                settings) as (_ & Hcreated & _).
  destruct (Hcreated "file:///site/content.config.ts"%string
              eq_refl eq_refl eq_refl) as (_ & _ & Hvalid).
  exact (Hvalid (Some ["blog"%string]) _ eq_refl eq_refl).
Defined.

Lemma loadContentConfig_closes_server_witness :
  tempConfigServer
    (run_loadContentConfig host_first_close_fails
       ["content.config.ts"%string] settings).2 <> Open
  /\ tempConfigServer
       (run_loadContentConfig host_ok ["content.config.ts"%string] settings).2
     = Closed.
Proof.
  split.
  - apply (loadContentConfig_closes_server host_first_close_fails
             ["content.config.ts"%string] settings) with (v := inr NotFoundError).
    reflexivity.
  - pose proof (loadContentConfig_closes_server host_ok
                  ["content.config.ts"%string] settings) as (_ & _ & Hok & _).
    exact (proj1 (Hok "file:///site/content.config.ts"%string
                      eq_refl eq_refl eq_refl)).
Defined.

End LoaderExamples.

(** ** The configuration observable *)

Section SetFacts.

Lemma Set_delete_all_length (gone : list Subscriber) (s : SetData) :
  length (Set_delete_all gone s) = length s.
Proof. apply length_fmap. Qed.

Lemma Set_delete_all_app (gone : list Subscriber) (s1 s2 : SetData) :
  Set_delete_all gone (s1 ++ s2)
  = Set_delete_all gone s1 ++ Set_delete_all gone s2.
Proof. apply fmap_app. Qed.

Lemma Set_delete_all_nil (s : SetData) : Set_delete_all [] s = s.
Proof.
  induction s as [|[fn|] s IH]; simpl; [done| |]; f_equal; try done.
Qed.

Lemma Set_delete_all_ext (gone1 gone2 : list Subscriber) (s : SetData) :
  (forall fn, fn ∈ gone1 <-> fn ∈ gone2) ->
  Set_delete_all gone1 s = Set_delete_all gone2 s.
Proof.
  intros H. induction s as [|[fn|] s IH]; simpl; [done| |]; f_equal; try done.
  by rewrite (bool_decide_ext _ _ (H fn)).
Qed.

Lemma Set_delete_all_twice (gone1 gone2 : list Subscriber) (s : SetData) :
  Set_delete_all gone2 (Set_delete_all gone1 s)
  = Set_delete_all (gone2 ++ gone1) s.
Proof.
  induction s as [|[fn|] s IH]; simpl; [done| |]; f_equal; try done.
  destruct (bool_decide_reflect (fn ∈ gone1)) as [H1|H1];
    destruct (bool_decide_reflect (fn ∈ gone2 ++ gone1)) as [H|H];
    try done.
  - exfalso. apply H. apply elem_of_app. by right.
  - destruct (bool_decide_reflect (fn ∈ gone2)) as [H2|H2]; [done|].
    exfalso. apply elem_of_app in H as [?|?]; done.
  - destruct (bool_decide_reflect (fn ∈ gone2)) as [H2|H2]; [|done].
    exfalso. apply H. apply elem_of_app. by left.
Qed.

Lemma Set_delete_one (fn : Subscriber) (s : SetData) :
  Set_delete fn s = Set_delete_all [fn] s.
Proof.
  induction s as [|[g|] s IH]; simpl; [done| |]; f_equal; try done.
  destruct (bool_decide_reflect (Some g = Some fn)) as [H|H];
    destruct (bool_decide_reflect (g ∈ [fn])) as [H'|H']; try done.
  - exfalso. apply H'. injection H as ->. by apply list_elem_of_singleton.
  - exfalso. apply H. apply list_elem_of_singleton in H'. by subst.
Qed.

Lemma Set_values_delete_all (gone : list Subscriber) (s : SetData) :
  Set_values (Set_delete_all gone s)
  = filter (fun fn => fn ∉ gone) (Set_values s).
Proof.
  induction s as [|[fn|] s IH]; simpl; [done| |done].
  rewrite filter_cons.
  destruct (bool_decide_reflect (fn ∈ gone)) as [H|H]; simpl.
  - destruct (decide (fn ∉ gone)); [done|]. apply IH.
  - destruct (decide (fn ∉ gone)); [|done]. f_equal. apply IH.
Qed.

Lemma elem_of_unsubscribed_by `{V : Validator} (fn : Subscriber) (cs : list Call) :
  fn ∈ unsubscribed_by cs <-> call_unsubscribe fn ∈ cs.
Proof.
  unfold unsubscribed_by. rewrite list_elem_of_omap. split.
  - intros (c & Hc & Hfn). destruct c; try discriminate. by injection Hfn as ->.
  - intros H. by exists (call_unsubscribe fn).
Qed.

Lemma elem_of_Set_values (fn : Subscriber) (s : SetData) :
  fn ∈ Set_values s <-> Some fn ∈ s.
Proof.
  unfold Set_values. rewrite list_elem_of_omap. split.
  - by intros (e & He & ->).
  - intros H. by exists (Some fn).
Qed.

Lemma Set_values_add (fn : Subscriber) (s : SetData) :
  Set_values (Set_add fn s)
  = if bool_decide (fn ∈ Set_values s) then Set_values s
    else Set_values s ++ [fn].
Proof.
  unfold Set_add, Set_has.
  rewrite (bool_decide_ext _ _ (elem_of_Set_values fn s)).
  destruct (bool_decide (Some fn ∈ s)); [done|].
  unfold Set_values. by rewrite omap_app.
Qed.

Lemma Set_values_delete (fn : Subscriber) (s : SetData) :
  Set_values (Set_delete fn s) = filter (fun g => g <> fn) (Set_values s).
Proof.
  rewrite Set_delete_one, Set_values_delete_all.
  apply list_filter_iff. intros g. by rewrite list_elem_of_singleton.
Qed.

End SetFacts.

Section RunFacts.
Context `{V : Validator}.
Variable body : Callbacks.

(** A body that only unsubscribes runs to its end, given fuel for each of
    its calls, and leaves the context and the calls as they are. *)
Lemma run_unsubscribes (cs : list Call) (st : Store) (fuel : nat) :
  forallb is_unsubscribe cs = true ->
  length cs < fuel ->
  run body fuel (Calls cs) st
  = Some (Returned
            {| ctx := ctx st;
               subscribers := Set_delete_all (unsubscribed_by cs) (subscribers st);
               calls := calls st |}).
Proof.
  revert st fuel. induction cs as [|c cs IH]; intros st fuel Hq Hfuel.
  - destruct fuel; [simpl in Hfuel; lia|]. simpl.
    rewrite Set_delete_all_nil. by destruct st.
  - destruct fuel as [|fuel]; [simpl in Hfuel; lia|].
    simpl in Hq. apply andb_prop in Hq as [Hc Hq].
    destruct c as [c'|fn|fn|e]; try discriminate. simpl.
    rewrite IH; [|done|simpl in Hfuel; lia]. simpl.
    rewrite Set_delete_one, Set_delete_all_twice. do 3 f_equal.
    apply Set_delete_all_ext. intros g.
    change (unsubscribed_by (call_unsubscribe fn :: cs))
      with (fn :: unsubscribed_by cs).
    rewrite elem_of_app, !elem_of_cons, elem_of_nil. tauto.
Qed.

Lemma run_ForEach_S (fuel i : nat) (st : Store) :
  run body (S fuel) (ForEach i) st
  = match subscribers st !! i with
    | None => Some (Returned st)
    | Some None => run body fuel (ForEach (S i)) st
    | Some (Some fn) =>
        match run body fuel (Calls (body fn (ctx st))) (record_call fn st) with
        | Some (Returned st') => run body fuel (ForEach (S i)) st'
        | Some (Threw e st') => Some (Threw e st')
        | None => None
        end
    end.
Proof. reflexivity. Qed.

(** [forEach] from slot [length pre] on, when the subscribers it reaches
    only unsubscribe: it ends, and has called whom [notify_in_order] says. *)
Lemma run_forEach (slots pre : SetData) (gone : list Subscriber) (st : Store) :
  subscribers st = Set_delete_all gone (pre ++ slots) ->
  (forall fn, fn ∈ Set_values slots ->
              forallb is_unsubscribe (body fn (ctx st)) = true) ->
  exists n, forall fuel, n <= fuel ->
    run body fuel (ForEach (length pre)) st
    = Some (Returned
              {| ctx := ctx st;
                 subscribers :=
                   Set_delete_all (notify_in_order body (ctx st) gone slots).2
                                  (pre ++ slots);
                 calls := calls st
                            ++ ((fun fn => (fn, ctx st))
                                  <$> (notify_in_order body (ctx st) gone slots).1) |}).
Proof.
  revert pre gone st. induction slots as [|slot slots IH]; intros pre gone st Hs Hq.
  - exists 1. intros [|fuel] Hfuel; [lia|]. rewrite run_ForEach_S.
    rewrite Hs, lookup_ge_None_2
      by (rewrite Set_delete_all_length, length_app; simpl; lia).
    simpl. rewrite <- Hs, app_nil_r. by destruct st.
  - assert (Hnext : pre ++ slot :: slots = (pre ++ [slot]) ++ slots)
      by (by rewrite <- app_assoc).
    assert (Hlen : length (pre ++ [slot]) = S (length pre))
      by (rewrite length_app; simpl; lia).
    assert (Hlook : subscribers st !! length pre
                    = Some (match slot with
                            | Some fn =>
                                if bool_decide (fn ∈ gone) then None else Some fn
                            | None => None
                            end)).
    { rewrite Hs. unfold Set_delete_all. rewrite list_lookup_fmap.
      by rewrite list_lookup_middle. }
    destruct slot as [fn|].
    + destruct (bool_decide_reflect (fn ∈ gone)) as [Hgone|Hlive].
      * (* unsubscribed before its turn: skipped *)
        destruct (IH (pre ++ [Some fn]) gone st) as [n Hn].
        { by rewrite <- Hnext. }
        { intros g Hg. apply Hq. simpl. by right. }
        exists (S n). intros [|fuel] Hfuel; [lia|]. rewrite run_ForEach_S, Hlook.
        rewrite <- Hlen, Hn by lia. rewrite <- Hnext. simpl.
        by rewrite bool_decide_true.
      * (* called, then the rest with what it unsubscribed *)
        set (gone' := unsubscribed_by (body fn (ctx st)) ++ gone).
        set (st1 := {| ctx := ctx st;
                       subscribers := Set_delete_all gone' (pre ++ Some fn :: slots);
                       calls := calls st ++ [(fn, ctx st)] |}).
        destruct (IH (pre ++ [Some fn]) gone' st1) as [n Hn].
        { simpl. by rewrite <- Hnext. }
        { intros g Hg. apply Hq. simpl. by right. }
        exists (S (Nat.max n (S (length (body fn (ctx st)))))).
        intros [|fuel] Hfuel; [lia|]. rewrite run_ForEach_S, Hlook.
        rewrite run_unsubscribes; [|apply Hq; simpl; by left|lia]. simpl.
        rewrite Hs, Set_delete_all_twice. fold gone'. fold st1.
        rewrite <- Hlen, Hn by lia. rewrite <- Hnext. simpl.
        rewrite bool_decide_false by done. fold gone'.
        destruct (notify_in_order body (ctx st) gone' slots) as [called gone''].
        simpl. by rewrite <- app_assoc.
    + (* an empty slot *)
      destruct (IH (pre ++ [None]) gone st) as [n Hn].
      { by rewrite <- Hnext. }
      { intros g Hg. by apply Hq. }
      exists (S n). intros [|fuel] Hfuel; [lia|]. rewrite run_ForEach_S, Hlook.
      rewrite <- Hlen, Hn by lia. by rewrite <- Hnext.
Qed.

End RunFacts.

Section NotifyFacts.
Context `{V : Validator}.
Variable body : Callbacks.
Variable c : ContentCtx.

Lemma notify_nil (gone : list Subscriber) :
  notify_in_order body c gone [] = ([], gone).
Proof. reflexivity. Qed.

Lemma notify_empty_slot (gone : list Subscriber) (slots : SetData) :
  notify_in_order body c gone (None :: slots)
  = notify_in_order body c gone slots.
Proof. reflexivity. Qed.

Lemma notify_gone (gone : list Subscriber) (fn : Subscriber) (slots : SetData) :
  fn ∈ gone ->
  notify_in_order body c gone (Some fn :: slots)
  = notify_in_order body c gone slots.
Proof. intros H. simpl. by rewrite bool_decide_true. Qed.

Lemma notify_live (gone : list Subscriber) (fn : Subscriber) (slots : SetData) :
  fn ∉ gone ->
  notify_in_order body c gone (Some fn :: slots)
  = (fn :: (notify_in_order body c
              (unsubscribed_by (body fn c) ++ gone) slots).1,
     (notify_in_order body c (unsubscribed_by (body fn c) ++ gone) slots).2).
Proof.
  intros H. simpl. rewrite bool_decide_false by done.
  by destruct (notify_in_order _ _ _ slots).
Qed.

(** Induction along the walk. *)
Lemma notify_ind (Q : list Subscriber -> SetData -> Prop) :
  (forall gone, Q gone []) ->
  (forall gone slots, Q gone slots -> Q gone (None :: slots)) ->
  (forall gone fn slots, fn ∈ gone -> Q gone slots -> Q gone (Some fn :: slots)) ->
  (forall gone fn slots,
      fn ∉ gone ->
      Q (unsubscribed_by (body fn c) ++ gone) slots ->
      Q gone (Some fn :: slots)) ->
  forall slots gone, Q gone slots.
Proof.
  intros Hnil Hempty Hgone Hlive.
  induction slots as [|[fn|] slots IH]; intros gone; [done| |by apply Hempty].
  destruct (decide (fn ∈ gone)); [by apply Hgone | by apply Hlive].
Qed.

Ltac notify_induction slots gone :=
  pattern gone, slots; revert slots gone; apply notify_ind; cbv beta.


(** Nobody leaves the list of the unsubscribed; who enters it was
    unsubscribed by somebody who was called. *)
Lemma gone_grows (slots : SetData) (gone : list Subscriber) :
  forall fn, fn ∈ gone -> fn ∈ (notify_in_order body c gone slots).2.
Proof.
  notify_induction slots gone.
  - by intros.
  - intros gone slots IH fn Hfn. rewrite notify_empty_slot. by apply IH.
  - intros gone g slots Hg IH fn Hfn. rewrite notify_gone by done. by apply IH.
  - intros gone g slots Hg IH fn Hfn. rewrite notify_live by done. simpl.
    apply IH. apply elem_of_app. by right.
Qed.

Lemma gone_origin (slots : SetData) (gone : list Subscriber) :
  forall fn, fn ∈ (notify_in_order body c gone slots).2 ->
    fn ∈ gone
    \/ exists g, g ∈ (notify_in_order body c gone slots).1
                 /\ call_unsubscribe fn ∈ body g c.
Proof.
  notify_induction slots gone.
  - intros gone fn Hfn. by left.
  - intros gone slots IH fn. rewrite notify_empty_slot. apply IH.
  - intros gone g slots Hg IH fn. rewrite notify_gone by done. apply IH.
  - intros gone g slots Hg IH fn. rewrite notify_live by done. simpl.
    intros Hfn. destruct (IH fn Hfn) as [Hin|(g' & Hg' & Hun)].
    + apply elem_of_app in Hin as [Hin|Hin]; [|by left].
      right. exists g. split; [by left|].
      by apply elem_of_unsubscribed_by.
    + right. exists g'. split; [by right | done].
Qed.


(** Every subscriber is called or unsubscribed. *)
Lemma called_or_gone (slots : SetData) (gone : list Subscriber) :
  forall fn, fn ∈ Set_values slots ->
    fn ∈ (notify_in_order body c gone slots).1
    \/ fn ∈ (notify_in_order body c gone slots).2.
Proof.
  notify_induction slots gone.
  - intros gone fn Hfn. by apply elem_of_nil in Hfn.
  - intros gone slots IH fn. rewrite notify_empty_slot. apply IH.
  - intros gone g slots Hg IH fn. rewrite notify_gone by done. simpl.
    intros Hfn. apply elem_of_cons in Hfn as [->|Hfn]; [|by apply IH].
    right. by apply gone_grows.
  - intros gone g slots Hg IH fn. rewrite notify_live by done. simpl.
    intros Hfn. apply elem_of_cons in Hfn as [->|Hfn].
    + left. by left.
    + destruct (IH fn Hfn) as [H|H]; [left; by right | by right].
Qed.




End NotifyFacts.

Section SetCalls.
Context `{V : Validator}.
Variable body : Callbacks.




End SetCalls.
Section ObservableClaim.
Context `{V : Validator}.

(** The values of the set never repeat. *)
Lemma Set_add_NoDup (fn : Subscriber) (s : SetData) :
  NoDup (Set_values s) -> NoDup (Set_values (Set_add fn s)).
Proof.
  intros Hnd. unfold Set_add, Set_has.
  destruct (bool_decide_reflect (Some fn ∈ s)) as [Hin|Hnotin]; [done|].
  unfold Set_values. rewrite omap_app. simpl.
  apply NoDup_app. split; [done|]. split; [|apply NoDup_singleton].
  intros g Hg Hg'. apply list_elem_of_singleton in Hg' as ->.
  apply list_elem_of_omap in Hg as (e & He & ->). done.
Qed.

Lemma Set_delete_NoDup (fn : Subscriber) (s : SetData) :
  NoDup (Set_values s) -> NoDup (Set_values (Set_delete fn s)).
Proof.
  intros Hnd. rewrite Set_delete_one, Set_values_delete_all.
  by apply NoDup_filter.
Qed.

(** So do the values of the set of every store a run reaches, whether
    the run returns or throws. *)
Lemma run_NoDup (body : Callbacks) (fuel : nat) (t : Task) (st : Store)
    (o : Outcome) :
  NoDup (Set_values (subscribers st)) ->
  run body fuel t st = Some o ->
  NoDup (Set_values (subscribers (store_of o))).
Proof.
  revert t st o. induction fuel as [|fuel IH]; intros t st o Hnd; [done|].
  destruct t as [[|c cs]|i].
  - by intros [= <-].
  - simpl. destruct c as [v|fn|fn|e].
    + destruct (run body fuel (ForEach 0) (assign_ctx v st)) as [[st1|e st1]|]
        eqn:H1; [| |done].
      * apply IH. by apply (IH _ (assign_ctx v st) _ Hnd H1).
      * intros [= <-]. by apply (IH _ (assign_ctx v st) _ Hnd H1).
    + apply IH. by apply Set_add_NoDup.
    + apply IH. by apply Set_delete_NoDup.
    + by intros [= <-].
  - rewrite run_ForEach_S. destruct (subscribers st !! i) as [[fn|]|].
    + destruct (run body fuel (Calls (body fn (ctx st))) (record_call fn st))
        as [[st1|e st1]|] eqn:H1; [| |done].
      * apply IH. by apply (IH _ (record_call fn st) _ Hnd H1).
      * intros [= <-]. by apply (IH _ (record_call fn st) _ Hnd H1).
    + by apply IH.
    + by intros [= <-].
Qed.

Lemma contentObservable_NoDup (initialCtx : ContentCtx) :
  NoDup (Set_values (subscribers (contentObservable initialCtx))).
Proof. apply NoDup_nil_2. Qed.

(** Whatever the subscribers do, and however the run ends, a run calls
    no subscriber that is not registered and that nobody subscribes: the
    calls it adds to those made before have none of that subscriber. *)
Lemma run_never_calls (body : Callbacks) (fn : Subscriber) (fuel : nat)
    (t : Task) (st : Store) (o : Outcome) :
  never_subscribes body fn ->
  (forall cs, t = Calls cs -> call_subscribe fn ∉ cs) ->
  fn ∉ Set_values (subscribers st) ->
  run body fuel t st = Some o ->
  (fn ∉ Set_values (subscribers (store_of o)))
  /\ exists later, calls (store_of o) = calls st ++ later
                   /\ forall c, (fn, c) ∉ later.
Proof.
  intros Hnever. revert t st o.
  assert (Hfor : forall i cs, ForEach i = Calls cs -> call_subscribe fn ∉ cs)
    by done.
  assert (Hnone : forall st : Store,
             exists later : list (Subscriber * ContentCtx),
               calls st = calls st ++ later /\ forall c, (fn, c) ∉ later).
  { intros st. exists []. split; [by rewrite app_nil_r|].
    intros c. apply not_elem_of_nil. }
  induction fuel as [|fuel IH]; intros t st o Ht Hout; [done|].
  destruct t as [[|c cs]|i].
  - intros [= <-]. by split.
  - assert (Hcs : forall cs', Calls cs = Calls cs' -> call_subscribe fn ∉ cs').
    { intros cs' [= <-] Hin. apply (Ht _ eq_refl). by right. }
    simpl. destruct c as [v|g|g|e].
    + destruct (run body fuel (ForEach 0) (assign_ctx v st)) as [[st1|e st1]|]
        eqn:H1; [| |done].
      * intros H2.
        destruct (IH (ForEach 0) (assign_ctx v st) _ (Hfor 0) Hout H1)
          as [Hout1 (l1 & Hc1 & Hl1)].
        destruct (IH (Calls cs) st1 o Hcs Hout1 H2) as [Hout2 (l2 & Hc2 & Hl2)].
        split; [done|]. exists (l1 ++ l2). simpl in Hc1. split.
        -- by rewrite Hc2, Hc1, app_assoc.
        -- intros c' Hin. apply elem_of_app in Hin as [Hin|Hin];
             [by apply (Hl1 c') | by apply (Hl2 c')].
      * intros [= <-].
        exact (IH (ForEach 0) (assign_ctx v st) _ (Hfor 0) Hout H1).
    + intros H2. apply (IH (Calls cs) (subscribe g st) o Hcs); [|done].
      simpl. rewrite Set_values_add.
      destruct (bool_decide (g ∈ Set_values (subscribers st))); [done|].
      intros Hin. apply elem_of_app in Hin as [Hin|Hin]; [done|].
      apply list_elem_of_singleton in Hin as ->.
      apply (Ht _ eq_refl). by left.
    + intros H2. apply (IH (Calls cs) (unsubscribe g st) o Hcs); [|done].
      simpl. rewrite Set_values_delete. intros Hin.
      by apply list_elem_of_filter in Hin as [_ Hin].
    + intros [= <-]. by split.
  - rewrite run_ForEach_S.
    destruct (subscribers st !! i) as [[g|]|] eqn:Hlook.
    + assert (Hg : g <> fn).
      { intros ->. apply Hout. apply elem_of_Set_values.
        by eapply list_elem_of_lookup_2. }
      assert (Hbody : forall cs, Calls (body g (ctx st)) = Calls cs ->
                                 call_subscribe fn ∉ cs).
      { intros cs [= <-]. apply Hnever. }
      assert (Hfirst : forall l1 l2 : list (Subscriber * ContentCtx),
                 (forall c, (fn, c) ∉ l1) -> (forall c, (fn, c) ∉ l2) ->
                 forall c, (fn, c) ∉ [(g, ctx st)] ++ l1 ++ l2).
      { intros l1 l2 Hl1 Hl2 c' Hin.
        apply elem_of_cons in Hin as [Hin|Hin]; [congruence|].
        apply elem_of_app in Hin as [Hin|Hin];
          [by apply (Hl1 c') | by apply (Hl2 c')]. }
      destruct (run body fuel (Calls (body g (ctx st))) (record_call g st))
        as [[st1|e st1]|] eqn:H1; [| |done].
      * intros H2.
        destruct (IH _ (record_call g st) _ Hbody Hout H1)
          as [Hout1 (l1 & Hc1 & Hl1)].
        destruct (IH (ForEach (S i)) st1 o (Hfor (S i)) Hout1 H2)
          as [Hout2 (l2 & Hc2 & Hl2)].
        split; [done|]. exists ([(g, ctx st)] ++ l1 ++ l2). simpl in Hc1.
        split; [|by apply Hfirst].
        by rewrite Hc2, Hc1, <- !app_assoc.
      * intros [= <-].
        destruct (IH _ (record_call g st) _ Hbody Hout H1)
          as [Hout1 (l1 & Hc1 & Hl1)].
        split; [done|]. exists ([(g, ctx st)] ++ l1 ++ []). simpl in Hc1.
        split; [|apply Hfirst; [done|]; intros c'; apply not_elem_of_nil].
        simpl. by rewrite Hc1, app_nil_r, <- app_assoc.
    + by apply IH.
    + intros [= <-]. by split.
Qed.



End ObservableClaim.

Section ObservableExamples.
Import Examples.



End ObservableExamples.

(** * Further properties *)

(** ** The error-line locator: bounds and edge cases *)

Section LocatorMore.
Import JsString JsStringFacts.

Lemma count_char_substring_mono (c : ascii) (s : string) (a b : nat) :
  a <= b ->
  count_char c (String.substring 0 a s) <= count_char c (String.substring 0 b s).
Proof.
  revert a b. induction s as [|d s IH]; intros a b Hab.
  - by destruct a, b.
  - destruct a as [|a]; [simpl; lia|].
    destruct b as [|b]; [lia|]. simpl.
    specialize (IH a b ltac:(lia)). lia.
Qed.

Lemma count_char_substring_le (c : ascii) (s : string) (n : nat) :
  count_char c (String.substring 0 n s) <= count_char c s.
Proof.
  destruct (Nat.le_gt_cases n (String.length s)) as [Hle|Hgt].
  - rewrite <- (substring_0_length s (String.length s)) at 2 by lia.
    by apply count_char_substring_mono.
  - rewrite substring_0_length; lia.
Qed.

(** Splitting distributes over a separator in the middle. *)
Lemma split_app_sep (sep : ascii) (pre rest : string) :
  split sep (pre +:+ String sep rest) = split sep pre ++ split sep rest.
Proof.
  induction pre as [|c pre IH].
  - rewrite app_nil. simpl. by rewrite Ascii.eqb_refl.
  - rewrite app_cons. simpl. destruct (Ascii.eqb c sep).
    + by rewrite IH.
    + rewrite IH. pose proof (split_length sep pre) as Hlen.
      destruct (split sep pre); [discriminate | done].
Qed.

(** The first piece of a text that begins with a separator-free key
    begins with that key. *)
Lemma split_head_prefix (sep : ascii) (key post : string) :
  count_char sep key = 0 ->
  exists line pieces,
    split sep (key +:+ post) = line :: pieces
    /\ String.prefix key line = true.
Proof.
  induction key as [|c key IH]; intros Hcount.
  - rewrite app_nil. pose proof (split_length sep post) as Hlen.
    destruct (split sep post) as [|line pieces]; [discriminate|].
    exists line, pieces. split; [done|]. by destruct line.
  - simpl in Hcount. destruct (Ascii.eqb c sep) eqn:Hc; [lia|].
    destruct (IH ltac:(lia)) as (line & pieces & Hsplit & Hprefix).
    rewrite app_cons. simpl. rewrite Hc, Hsplit.
    exists (String c line), pieces. split; [done|].
    simpl. by destruct (ascii_dec c c).
Qed.

(** A text with a separator in it has a first one. *)
Lemma count_char_occurs (c : ascii) (s : string) :
  0 < count_char c s ->
  exists j, j < String.length s /\ occurs_at (String c EmptyString) s j.
Proof.
  induction s as [|d s IH]; simpl; [lia|].
  destruct (Ascii.eqb_spec d c) as [->|Hne].
  - intros _. exists 0. split; [lia|]. by exists EmptyString, s.
  - intros Hpos. destruct (IH ltac:(lia)) as (j & Hj & pre & post & -> & <-).
    exists (S (String.length pre)). split; [lia|].
    by exists (String d pre), post.
Qed.

Lemma locator_found_at (raw key : string) (i : nat) :
  String.index 0 (String newline key) raw = Some i ->
  exists pre post,
    raw = pre +:+ String newline (key +:+ post)
    /\ String.length pre = i
    /\ getFrontmatterErrorLine raw key
       = Z.of_nat (S (S (count_char newline pre))).
Proof.
  intros Hidx. destruct (index_first_occurrence _ _ _ Hidx) as [Hocc _].
  pose proof (line_number_after_break _ _ _ Hocc) as Hline.
  destruct Hocc as (pre & post & -> & <-). exists pre, post.
  split; [done|]. split; [done|].
  rewrite (locator_found _ _ _ Hidx), Hline. by rewrite substring_0_app.
Qed.

(** The two cases of the locator on a raw frontmatter, with its number
    of lines. *)
Lemma locator_cases (raw key : string) :
  (getFrontmatterErrorLine raw key = 0%Z
   \/ exists pre post,
        raw = pre +:+ String newline (key +:+ post)
        /\ getFrontmatterErrorLine raw key
           = Z.of_nat (S (S (count_char newline pre))))
  /\ length (split newline raw) = S (count_char newline raw).
Proof.
  split; [|apply split_length].
  destruct (String.index 0 (String newline key) raw) as [i|] eqn:Hidx.
  - right. destruct (locator_found_at _ _ _ Hidx) as (pre & post & ? & _ & ?).
    by exists pre, post.
  - left. by apply locator_not_found.
Qed.

(** X1. The line the locator reports is never negative and never beyond
    the last line of the raw frontmatter. *)
Theorem getFrontmatterErrorLine_within_text (raw key : string) :
  (0 <= getFrontmatterErrorLine raw key
   <= Z.of_nat (length (split newline raw)))%Z.
Proof.
  destruct (locator_cases raw key) as [[Hzero|(pre & post & Hraw & Hres)] ->].
  - rewrite Hzero. lia.
  - rewrite Hres, Hraw, count_char_app. simpl. lia.
Qed.

(** X2. When a key without line break is found, the line the locator
    reports exists in the raw frontmatter and begins with the key. *)
Theorem getFrontmatterErrorLine_line_begins_with_key
    (raw key : string) (n : nat) :
  count_char newline key = 0 ->
  getFrontmatterErrorLine raw key = Z.of_nat (S n) ->
  exists line,
    split newline raw !! n = Some line /\ String.prefix key line = true.
Proof.
  intros Hkey Hline.
  destruct (String.index 0 (String newline key) raw) as [i|] eqn:Hidx.
  - destruct (locator_found_at _ _ _ Hidx) as (pre & post & -> & _ & Hres).
    rewrite Hres in Hline. apply Nat2Z.inj in Hline. injection Hline as <-.
    destruct (split_head_prefix newline key post Hkey)
      as (line & pieces & Hsplit & Hprefix).
    exists line. split; [|done].
    rewrite split_app_sep, Hsplit.
    apply list_lookup_middle. by rewrite split_length.
  - rewrite (locator_not_found _ _ Hidx) in Hline. lia.
Qed.

Lemma getFrontmatterErrorLine_line_begins_with_key_witness :
  exists line,
    split newline example_frontmatter !! 2 = Some line
    /\ String.prefix "body" line = true.
Proof.
  apply (getFrontmatterErrorLine_line_begins_with_key
           example_frontmatter "body" 2); reflexivity.
Defined.

(** X3. A key that begins another key is found wherever the longer one
    is: when the longer key is found, the shorter one is found too, on
    the same line or on an earlier one. *)
Theorem getFrontmatterErrorLine_shorter_key (raw key rest : string) :
  getFrontmatterErrorLine raw (key +:+ rest) <> 0%Z ->
  (2 <= getFrontmatterErrorLine raw key
   <= getFrontmatterErrorLine raw (key +:+ rest))%Z.
Proof.
  intros Hfound.
  destruct (String.index 0 (String newline (key +:+ rest)) raw) as [i2|] eqn:H2;
    [|by rewrite (locator_not_found _ _ H2) in Hfound].
  destruct (index_first_occurrence _ _ _ H2) as [Hocc2 _].
  assert (Hocc1 : occurs_at (String newline key) raw i2).
  { destruct Hocc2 as (pre & post & -> & <-). exists pre, (rest +:+ post).
    split; [|done]. rewrite !app_cons. do 2 f_equal.
    clear. induction key as [|c key IH]; [done|].
    rewrite !app_cons. by f_equal. }
  destruct (String.index 0 (String newline key) raw) as [i1|] eqn:H1.
  - destruct (index_Some _ _ _ H1) as [_ Hmin].
    assert (i1 <= i2) as Hle.
    { destruct (Nat.le_gt_cases i1 i2) as [?|Hgt]; [done|].
      apply Hmin in Hgt. apply occurs_atb_spec in Hocc1. congruence. }
    rewrite (locator_found _ _ _ H1), (locator_found _ _ _ H2).
    destruct (index_first_occurrence _ _ _ H1) as [Hocc _].
    pose proof (line_number_after_break _ _ _ Hocc) as Hlow.
    pose proof (count_char_substring_mono newline raw (S i1) (S i2)
                  ltac:(lia)) as Hmono.
    unfold line_number in *. lia.
  - apply occurs_atb_spec in Hocc1.
    by rewrite (index_None _ _ H1) in Hocc1.
Qed.

Lemma getFrontmatterErrorLine_shorter_key_witness :
  (2 <= getFrontmatterErrorLine
          (String.concat nl ["---"; "titleCase: a"; "title: b"]%string) "title"
   <= getFrontmatterErrorLine
          (String.concat nl ["---"; "titleCase: a"; "title: b"]%string)
          ("title" +:+ ": b"))%Z.
Proof.
  apply (getFrontmatterErrorLine_shorter_key
           (String.concat nl ["---"; "titleCase: a"; "title: b"]%string)
           "title" ": b").
  discriminate.
Defined.

(** X4. The edge cases of the locator: in an empty frontmatter no key
    is found, and the empty key is found right after the first line
    break, on line 2, when the frontmatter has one, and not at all
    otherwise. *)
Theorem getFrontmatterErrorLine_empty (raw key : string) :
  getFrontmatterErrorLine EmptyString key = 0%Z
  /\ getFrontmatterErrorLine raw EmptyString
     = (if Nat.eqb (count_char newline raw) 0 then 0 else 2)%Z.
Proof.
  split; [reflexivity|].
  destruct (String.index 0 (String newline EmptyString) raw) as [i|] eqn:Hidx.
  - destruct (index_first_occurrence _ _ _ Hidx) as [_ Hmin].
    destruct (locator_found_at _ _ _ Hidx) as (pre & post & -> & Hlen & ->).
    rewrite count_char_app. simpl.
    destruct (Nat.eqb_spec (count_char newline pre + S (count_char newline post)) 0)
      as [?|_]; [lia|].
    destruct (Nat.eq_dec (count_char newline pre) 0) as [->|Hpos]; [done|].
    exfalso.
    destruct (count_char_occurs newline pre ltac:(lia))
      as (j & Hj & p1 & p2 & -> & <-).
    apply (Hmin (String.length p1)); [lia|].
    exists p1, (p2 +:+ String newline post). split; [|done].
    rewrite !app_cons, !app_nil.
    clear. induction p1 as [|c p1 IH]; [done|].
    rewrite !app_cons. by f_equal.
  - rewrite (locator_not_found _ _ Hidx).
    destruct (Nat.eqb_spec (count_char newline raw) 0) as [_|Hpos]; [done|].
    exfalso.
    destruct (count_char_occurs newline raw ltac:(lia)) as (j & _ & Hocc).
    apply occurs_atb_spec in Hocc.
    by rewrite (index_None _ _ Hidx) in Hocc.
Qed.

End LocatorMore.

Section LocatorFirstLine.
Import JsString JsStringFacts.

(** A piece after the first one follows a separator. *)
Lemma split_lookup_S (sep : ascii) (s : string) (j : nat) (line : string) :
  split sep s !! S j = Some line ->
  exists pre rest pieces,
    s = pre +:+ String sep rest
    /\ count_char sep pre = j
    /\ split sep rest = line :: pieces.
Proof.
  revert j line. induction s as [|c s IH]; intros j line; [done|].
  simpl. destruct (Ascii.eqb_spec c sep) as [->|Hne].
  - destruct j as [|j].
    + simpl. intros Hhead. exists EmptyString, s.
      destruct (split sep s) as [|l pieces]; [done|].
      exists pieces. by injection Hhead as ->.
    + intros Hj. destruct (IH j line Hj) as (pre & rest & pieces & -> & Hc & Hs).
      exists (String sep pre), rest, pieces. split; [done|].
      split; [|done]. simpl. rewrite Ascii.eqb_refl. lia.
  - pose proof (split_length sep s) as Hlen.
    destruct (split sep s) as [|h t] eqn:Hsplit; [discriminate|].
    intros Hj. destruct (IH j line Hj) as (pre & rest & pieces & -> & Hc & Hs).
    exists (String c pre), rest, pieces. split; [done|].
    split; [|done]. simpl.
    destruct (Ascii.eqb_spec c sep) as [?|_]; [done | lia].
Qed.

(** A text begins with its first piece. *)
Lemma split_head_app (sep : ascii) (s line : string) (pieces : list string) :
  split sep s = line :: pieces -> exists tail, s = line +:+ tail.
Proof.
  revert line pieces. induction s as [|c s IH]; intros line pieces.
  - intros [= <- <-]. by exists EmptyString.
  - simpl. destruct (Ascii.eqb c sep).
    + intros [= <- <-]. by exists (String c s).
    + pose proof (split_length sep s) as Hlen.
      destruct (split sep s) as [|h t]; [discriminate|].
      intros [= <- <-]. destruct (IH h t eq_refl) as [tail ->].
      by exists tail.
Qed.

Lemma app_assoc_string (a b c : string) : (a +:+ b) +:+ c = a +:+ (b +:+ c).
Proof. induction a as [|x a IH]; [done|]. rewrite !app_cons. by f_equal. Qed.

(** X5. The line the locator reports is the first one, after the first
    line of the raw frontmatter, that begins with the key: no line
    between the first and the reported one does. *)
Theorem getFrontmatterErrorLine_first_line_with_key
    (raw key : string) (n j : nat) (line : string) :
  getFrontmatterErrorLine raw key = Z.of_nat (S n) ->
  1 <= j < n ->
  split newline raw !! j = Some line ->
  String.prefix key line = false.
Proof.
  intros Hline [Hj Hjn] Hlook.
  destruct (String.prefix key line) eqn:Hprefix; [|done]. exfalso.
  destruct (String.index 0 (String newline key) raw) as [i|] eqn:Hidx;
    [|rewrite (locator_not_found _ _ Hidx) in Hline; lia].
  destruct (index_first_occurrence _ _ _ Hidx) as [_ Hmin].
  destruct (locator_found_at _ _ _ Hidx) as (pre & post & Hraw & Hlen & Hres).
  rewrite Hres in Hline. apply Nat2Z.inj in Hline. injection Hline as Hn.
  destruct j as [|j]; [lia|].
  destruct (split_lookup_S _ _ _ _ Hlook) as (pre' & rest & pieces & Hraw' & Hc & Hs).
  destruct (split_head_app _ _ _ _ Hs) as [tail ->].
  apply prefix_app in Hprefix as [post' ->].
  assert (Hocc : occurs_at (String newline key) raw (String.length pre')).
  { exists pre', (post' +:+ tail). split; [|done].
    by rewrite Hraw', !app_cons, app_assoc_string. }
  destruct (Nat.le_gt_cases i (String.length pre')) as [Hle|Hgt];
    [|by apply (Hmin _ Hgt)].
  pose proof (count_char_substring_mono newline raw i (String.length pre') Hle)
    as Hmono.
  rewrite <- Hlen in Hmono at 1. rewrite Hraw in Hmono at 1.
  rewrite substring_0_app in Hmono.
  rewrite Hraw', substring_0_app in Hmono. lia.
Qed.

Lemma getFrontmatterErrorLine_first_line_with_key_witness :
  String.prefix "body" "title: 5" = false.
Proof.
  apply (getFrontmatterErrorLine_first_line_with_key
           example_frontmatter "body" 2 1 "title: 5");
    [reflexivity | lia | reflexivity].
Defined.

End LocatorFirstLine.

(** ** The schema validator and the locator together *)

Section EntryDataMore.
Context `{V : Validator} `{T : ErrorTable}.
Import JsString JsStringFacts.

(** X6. [getEntryData] resolves in two cases only: to the entry's data
    when the collection has no schema, and to the data the validator
    returns, which replaces the entry's, when the validation succeeds. *)
Theorem getEntryData_resolves (entry : Entry) (collectionConfig : CollectionConfig)
    (d : JsValue) :
  getEntryData entry collectionConfig = Fulfilled d
  <-> (cfg_schema collectionConfig = None /\ d = entry_data entry)
      \/ exists schema,
           cfg_schema collectionConfig = Some schema
           /\ validate schema (entry_data entry) = inl d.
Proof.
  unfold getEntryData, safeParseAsync.
  destruct (cfg_schema collectionConfig) as [schema|].
  - destruct (validate schema (entry_data entry)) as [parsed_data|raised] eqn:Hv;
      simpl.
    + split.
      * intros [= ->]. right. by exists schema.
      * intros [[? _]|(s & [= <-] & Hd)]; [done|]. congruence.
    + destruct (map (makeIssue errorMap) raised !! 0); (split; [done|]);
        intros [[? _]|(s & [= <-] & Hd)]; congruence.
  - split.
    + intros [= ->]. by left.
    + intros [[_ ->]|(s & Hs & _)]; [done | discriminate].
Qed.

(** X7. Whenever [getEntryData] rejects with a schema-validation error,
    the location is in the entry's file, at column 0, on a line that is
    0 or at least 2 and never beyond the last line of the raw frontmatter. *)
Theorem getEntryData_location_bounds (entry : Entry)
    (collectionConfig : CollectionConfig) (e : AstroError) :
  getEntryData entry collectionConfig = Rejected (ThrownAstroError e) ->
  astro_data e = MarkdownContentSchemaValidationError
  /\ loc_file (astro_location e) = Some (filePath (entry_internal entry))
  /\ loc_column (astro_location e) = 0%Z
  /\ (loc_line (astro_location e) = 0
      \/ 2 <= loc_line (astro_location e))%Z
  /\ (loc_line (astro_location e)
      <= Z.of_nat (length (split newline (rawData (entry_internal entry)))))%Z.
Proof.
  unfold getEntryData.
  destruct (cfg_schema collectionConfig) as [schema|]; [|done].
  destruct (safeParseAsync schema (entry_data entry) errorMap)
    as [parsed_data|parsed_error]; [done|].
  destruct (errors parsed_error !! 0) as [first|]; [|done].
  intros [= <-]. simpl. split; [done|]. split; [done|]. split; [done|].
  destruct (locator_cases (rawData (entry_internal entry))
              (Js.String_ (issue_path first !! 0)))
    as [[Hzero|(pre & post & Hraw & Hres)] Hlines].
  - rewrite Hzero. split; [by left | lia].
  - rewrite Hres, Hlines. split; [right; lia|].
    rewrite Hraw, count_char_app. simpl. lia.
Qed.

End EntryDataMore.

Section EntryDataExamples.
Import JsString JsStringFacts Examples.

Lemma getEntryData_location_bounds_witness :
  exists e,
    getEntryData (post (JObject [("title"%string, JNumber 5)])) blog
    = Rejected (ThrownAstroError e)
    /\ (loc_line (astro_location e) = 0 \/ 2 <= loc_line (astro_location e))%Z.
Proof.
  eexists. split; [reflexivity|].
  eapply (getEntryData_location_bounds
            (post (JObject [("title"%string, JNumber 5)])) blog).
  reflexivity.
Defined.

End EntryDataExamples.

(** X8. A failed validation whose first issue is at a key that begins no
    line of the raw frontmatter after the first, as when a required field
    is absent from the file, is reported at line 0. *)
Theorem getEntryData_absent_field_line `{V : Validator} `{T : ErrorTable}
    (entry : Entry) (collectionConfig : CollectionConfig) (schema : Shape)
    (first : ZodIssueOptionalMessage * string)
    (rest : list (ZodIssueOptionalMessage * string))
    (key : string) (path : list PathSegment) :
  cfg_schema collectionConfig = Some schema ->
  validate schema (entry_data entry) = inr (first :: rest) ->
  raw_path first.1 = Key key :: path ->
  (forall i, ~ JsString.occurs_at (String JsString.newline key)
                 (rawData (entry_internal entry)) i) ->
  exists e,
    getEntryData entry collectionConfig = Rejected (ThrownAstroError e)
    /\ loc_line (astro_location e) = 0%Z.
Proof.
  intros Hs Hv Hpath Hnone. unfold getEntryData, safeParseAsync.
  rewrite Hs, Hv. destruct first as [d dflt]. simpl in *. rewrite Hpath. simpl.
  eexists. split; [reflexivity|]. simpl.
  apply locator_not_found.
  destruct (String.index 0 (String JsString.newline key)
              (rawData (entry_internal entry))) as [i|] eqn:Hidx; [|done].
  destruct (JsStringFacts.index_first_occurrence _ _ _ Hidx) as [Hocc _].
  by destruct (Hnone i).
Qed.

Lemma getEntryData_absent_field_line_witness :
  exists e,
    getEntryData (V := Examples.primitive_validator) (T := Examples.error_table)
      (Examples.post (JObject [])) Examples.signed_blog
    = Rejected (ThrownAstroError e)
    /\ loc_line (astro_location e) = 0%Z.
Proof.
  apply (getEntryData_absent_field_line
           (V := Examples.primitive_validator) (T := Examples.error_table)
           (Examples.post (JObject [])) Examples.signed_blog
           Examples.author_schema
           (Examples.invalid [Key "author"] zt_string zt_undefined) []
           "author" []); try reflexivity.
  intros i. apply JsStringFacts.occurs_atb_false.
  apply JsStringFacts.index_None. reflexivity.
Defined.

(** ** The frontmatter parser: what passes through *)

(** X9. [parseFrontmatter] returns exactly when the frontmatter library
    returns, and the same file; an error that is not a YAML exception is
    thrown again as it is, whatever the file path. *)
Theorem parseFrontmatter_passes_through `{F : FrontmatterLib}
    (fileContents filePath : string) :
  (forall file,
      parseFrontmatter fileContents filePath = Normal file
      <-> matter fileContents = Normal file)
  /\ (forall e,
        matter fileContents = Throw (ThrownError e) ->
        error_name e <> "YAMLException"%string ->
        parseFrontmatter fileContents filePath = Throw (ThrownError e))
  /\ (forall e,
        matter fileContents = Throw (ThrownAstroError e) ->
        parseFrontmatter fileContents filePath = Throw (ThrownAstroError e)).
Proof.
  unfold parseFrontmatter. split; [|split].
  - intros file. destruct (matter fileContents) as [f|[e|e]]; [done|done|].
    destruct (String.eqb (error_name e) "YAMLException"); [|done].
    by destruct (error_mark e).
  - intros e -> Hname. apply String.eqb_neq in Hname. by rewrite Hname.
  - by intros e ->.
Qed.

Lemma parseFrontmatter_passes_through_witness :
  parseFrontmatter (F := Examples.frontmatter_lib) "Hello" "/site/a.md"
  = Normal {| matter_data := JObject []; matter_content := "Hello" |}.
Proof.
  apply (parseFrontmatter_passes_through (F := Examples.frontmatter_lib)
           "Hello" "/site/a.md").
  reflexivity.
Defined.

(** ** The configuration loader: what its result tells *)

Section LoaderMore.
Context `{V : Validator} `{C : @ConfigModule V} `{P : Platform}
        `{VP : @VirtualModPlugin P}.

(** X10. Without a configuration file the loader returns the not-found
    error without creating a server or closing one, whatever the
    module-execution server would answer. *)
Theorem loadContentConfig_without_config (h h' : ViteHost) (fs : FileSystem)
    (settings : AstroSettings) :
  config_of fs settings = None ->
  run_loadContentConfig h fs settings = (Normal (inr NotFoundError), no_server)
  /\ run_loadContentConfig h' fs settings = run_loadContentConfig h fs settings.
Proof.
  intros Hc. by rewrite !load_no_config.
Qed.

(** X11. What the loader returns tells what happened: a configuration
    comes from a module that loaded, passed the parser and whose server
    was closed by the first teardown; a parse error comes from a module
    that loaded and that the parser refused, with the parser's message. *)
Theorem loadContentConfig_result_origin (h : ViteHost) (fs : FileSystem)
    (settings : AstroSettings) :
  let r := run_loadContentConfig h fs settings in
  (forall validated,
      r.1 = Normal (inl validated) ->
      exists u m,
        config_of fs settings = Some u
        /\ createServer_result h (server_options settings) = Normal tt
        /\ ssrLoadModule_result h (pathname u) = Normal m
        /\ close_result h 0 = Normal tt
        /\ contentConfigParser_safeParse m = ParseSuccess validated
        /\ r.2 = closed_after 1)
  /\ (forall msg,
        r.1 = Normal (inr (ZodParseError msg)) ->
        exists u m error,
          config_of fs settings = Some u
          /\ ssrLoadModule_result h (pathname u) = Normal m
          /\ close_result h 0 = Normal tt
          /\ contentConfigParser_safeParse m = ParseFailure error
          /\ msg = ZodError_message error
          /\ r.2 = closed_after 1).
Proof.
  intros r. subst r.
  destruct (config_of fs settings) as [u|] eqn:Hc;
    [|rewrite (load_no_config h fs settings Hc); by split].
  destruct (createServer_result h (server_options settings)) as [[]|e] eqn:Hs;
    [|rewrite (load_create_throws h fs settings u e Hc Hs); by split].
  destruct (ssrLoadModule_result h (pathname u)) as [m|e] eqn:Hm.
  - destruct (close_result h 0) as [[]|e0] eqn:H0.
    + rewrite (load_module_ok h fs settings u m Hc Hs Hm H0). unfold parsed.
      destruct (contentConfigParser_safeParse m) as [d|error] eqn:Hp; simpl;
        split; try done.
      * intros validated [= <-]. by exists u, m.
      * intros msg [= <-]. by exists u, m, error.
    + rewrite (load_first_close_throws h fs settings u m e0 Hc Hs Hm H0).
      by destruct (close_result h 1).
  - rewrite (load_module_throws h fs settings u e Hc Hs Hm).
    by destruct (close_result h 0).
Qed.

(** X12. The loader calls the teardown at most twice, and not at all
    unless it created the server; it calls it a second time only after
    the module loaded and the first teardown threw. *)
Theorem loadContentConfig_close_calls (h : ViteHost) (fs : FileSystem)
    (settings : AstroSettings) :
  let r := run_loadContentConfig h fs settings in
  close_calls r.2 <= 2
  /\ (tempConfigServer r.2 = NotCreated <-> close_calls r.2 = 0)
  /\ (close_calls r.2 = 2 ->
      exists u m e,
        config_of fs settings = Some u
        /\ ssrLoadModule_result h (pathname u) = Normal m
        /\ close_result h 0 = Throw e).
Proof.
  intros r. subst r.
  destruct (config_of fs settings) as [u|] eqn:Hc;
    [|rewrite (load_no_config h fs settings Hc); simpl;
      split; [lia|]; by split].
  destruct (createServer_result h (server_options settings)) as [[]|e] eqn:Hs;
    [|rewrite (load_create_throws h fs settings u e Hc Hs); simpl;
      split; [lia|]; by split].
  destruct (ssrLoadModule_result h (pathname u)) as [m|e] eqn:Hm.
  - destruct (close_result h 0) as [[]|e0] eqn:H0.
    + rewrite (load_module_ok h fs settings u m Hc Hs Hm H0). simpl.
      split; [lia|]. by split.
    + rewrite (load_first_close_throws h fs settings u m e0 Hc Hs Hm H0).
      destruct (close_result h 1); simpl; (split; [lia|]);
        (split; [done|]); intros _; by exists u, m, e0.
  - rewrite (load_module_throws h fs settings u e Hc Hs Hm).
    destruct (close_result h 0); simpl; (split; [lia|]); by split.
Qed.

(** X13. Of the configuration files found, only the first counts: two
    file systems whose searches agree on their first match give the same
    run of the loader. *)
Theorem loadContentConfig_first_match (h : ViteHost) (fs fs' : FileSystem)
    (settings : AstroSettings) :
  glob_sync "content.config.{ts,js,mjs}"
    (fileURLToPath (root (settings_config settings))) fs !! 0
  = glob_sync "content.config.{ts,js,mjs}"
      (fileURLToPath (root (settings_config settings))) fs' !! 0 ->
  run_loadContentConfig h fs settings = run_loadContentConfig h fs' settings.
Proof.
  intros Hfirst.
  unfold run_loadContentConfig, loadContentConfig, getContentPaths. simpl.
  by rewrite Hfirst.
Qed.

End LoaderMore.

Section LoaderMoreExamples.
Import Examples.

Lemma loadContentConfig_without_config_witness :
  run_loadContentConfig host_without_server ["readme.md"%string] settings
  = run_loadContentConfig host_ok ["readme.md"%string] settings.
Proof.
  apply (loadContentConfig_without_config host_ok host_without_server
           ["readme.md"%string] settings).
  reflexivity.
Defined.

Lemma loadContentConfig_result_origin_witness :
  exists u m,
    config_of ["content.config.ts"%string] settings = Some u
    /\ createServer_result host_ok (server_options settings) = Normal tt
    /\ ssrLoadModule_result host_ok (pathname u) = Normal m
    /\ close_result host_ok 0 = Normal tt
    /\ contentConfigParser_safeParse m
       = ParseSuccess
           {| collections :=
                [("blog"%string, {| cfg_schema := None; cfg_slug := None |})] |}
    /\ (run_loadContentConfig host_ok ["content.config.ts"%string] settings).2
       = closed_after 1.
Proof.
  apply (loadContentConfig_result_origin host_ok ["content.config.ts"%string]
           settings).
  reflexivity.
Defined.

Lemma loadContentConfig_close_calls_witness :
  exists u m e,
    config_of ["content.config.ts"%string] settings = Some u
    /\ ssrLoadModule_result host_first_close_fails (pathname u) = Normal m
    /\ close_result host_first_close_fails 0 = Throw e.
Proof.
  apply (loadContentConfig_close_calls host_first_close_fails
           ["content.config.ts"%string] settings).
  reflexivity.
Defined.

Lemma loadContentConfig_first_match_witness :
  run_loadContentConfig host_ok
    ["content.config.ts"; "content.config.mjs"]%string settings
  = run_loadContentConfig host_ok ["content.config.ts"%string] settings.
Proof.
  apply (loadContentConfig_first_match host_ok
           ["content.config.ts"; "content.config.mjs"]%string
           ["content.config.ts"%string] settings).
  reflexivity.
Defined.

End LoaderMoreExamples.

(** ** The observable: registration and who is called *)

Section RegistrationMore.
Context `{V : Validator}.

Lemma filter_keeps_all (fn : Subscriber) (l : list Subscriber) :
  fn ∉ l -> filter (fun g => g <> fn) l = l.
Proof.
  induction l as [|g l IH]; intros Hout; [done|].
  apply not_elem_of_cons in Hout as [Hne Hout].
  rewrite filter_cons_True by done. f_equal. by apply IH.
Qed.

(** X14. A subscriber is registered once: subscribing a new one puts it
    last in the registration order, subscribing a registered one changes
    nothing, and subscribing twice is subscribing once. *)
Theorem subscribe_once (fn : Subscriber) (st : Store) :
  (fn ∉ Set_values (subscribers st) ->
   Set_values (subscribers (subscribe fn st))
   = Set_values (subscribers st) ++ [fn])
  /\ (fn ∈ Set_values (subscribers st) -> subscribe fn st = st)
  /\ subscribe fn (subscribe fn st) = subscribe fn st.
Proof.
  split; [|split].
  - intros Hnew. simpl. rewrite Set_values_add. by rewrite bool_decide_false.
  - intros Hin. apply elem_of_Set_values in Hin.
    unfold subscribe, Set_add, Set_has. rewrite bool_decide_true by done.
    by destruct st.
  - unfold subscribe. simpl. f_equal. unfold Set_add, Set_has.
    destruct (bool_decide_reflect (Some fn ∈ subscribers st)) as [Hin|Hnew].
    + by rewrite bool_decide_true.
    + rewrite bool_decide_true; [done|]. apply elem_of_app. right.
      by apply list_elem_of_singleton.
Qed.

(** X15. Unsubscribing removes the subscriber and keeps the order of the
    others; it changes no registration when the subscriber is not
    registered; subscribing again after it puts the subscriber last. *)
Theorem unsubscribe_then_subscribe (fn : Subscriber) (st : Store) :
  Set_values (subscribers (unsubscribe fn st))
  = filter (fun g => g <> fn) (Set_values (subscribers st))
  /\ (fn ∉ Set_values (subscribers st) ->
      Set_values (subscribers (unsubscribe fn st))
      = Set_values (subscribers st))
  /\ Set_values (subscribers (subscribe fn (unsubscribe fn st)))
     = filter (fun g => g <> fn) (Set_values (subscribers st)) ++ [fn].
Proof.
  split; [|split].
  - apply Set_values_delete.
  - intros Hout. simpl. rewrite Set_values_delete.
    by apply filter_keeps_all.
  - simpl. rewrite Set_values_add, Set_values_delete.
    rewrite bool_decide_false; [done|].
    intros Hin. by apply list_elem_of_filter in Hin as [Hne _].
Qed.

End RegistrationMore.

Lemma subscribe_once_witness :
  Set_values (subscribers (subscribe 2 Examples.two_subscribers)) = [0; 1; 2]
  /\ subscribe 1 Examples.two_subscribers = Examples.two_subscribers.
Proof.
  split.
  - apply (proj1 (subscribe_once 2 Examples.two_subscribers)).
    apply (bool_decide_unpack _). reflexivity.
  - apply (proj1 (proj2 (subscribe_once 1 Examples.two_subscribers))).
    apply (bool_decide_unpack _). reflexivity.
Defined.

Lemma unsubscribe_then_subscribe_witness :
  Set_values (subscribers (unsubscribe 7 Examples.two_subscribers))
  = Set_values (subscribers Examples.two_subscribers).
Proof.
  apply (proj1 (proj2 (unsubscribe_then_subscribe 7 Examples.two_subscribers))).
  apply (bool_decide_unpack _). reflexivity.
Defined.
Section NeverCalled.
Context `{V : Validator}.
Variable body : Callbacks.

(** X16. A subscriber that is not registered when [set] is called, and
    that no callback subscribes, is not called by that [set], whatever
    the callbacks do, nested calls of [set] and exceptions included: the
    calls made during the [set] come after those made before it and none
    of them is a call of that subscriber; and it is still not registered
    afterwards. *)
Theorem set_never_calls_unsubscribed
    (fn : Subscriber) (fuel : nat) (c : ContentCtx) (st : Store) (o : Outcome) :
  never_subscribes body fn ->
  fn ∉ Set_values (subscribers st) ->
  set body fuel c st = Some o ->
  (fn ∉ Set_values (subscribers (store_of o)))
  /\ exists later, calls (store_of o) = calls st ++ later
                   /\ forall c', (fn, c') ∉ later.
Proof.
  intros Hnever Hout Hset.
  apply (run_never_calls body fn fuel (ForEach 0) (assign_ctx c st) o); done.
Qed.

End NeverCalled.

Lemma set_never_calls_unsubscribed_witness :
  ((7, status_loading) ∉ [(0, Examples.not_found); (0, status_loading);
                          (1, status_loading); (1, status_loading)])
  /\ (7 ∉ Set_values [Some 0; Some 1]).
Proof.
  destruct (set_never_calls_unsubscribed Examples.resets_on_error 7 10
              Examples.not_found Examples.two_subscribers
              (Returned
                 {| ctx := status_loading;
                    subscribers := [Some 0; Some 1];
                    calls := [(0, Examples.not_found); (0, status_loading);
                              (1, status_loading); (1, status_loading)] |}))
    as [Hout (later & Hcalls & Hlater)].
  - intros g c Hin'. destruct g as [|g], c; simpl in Hin';
      repeat (apply elem_of_cons in Hin' as [Hin'|Hin']; [discriminate|]);
      by apply elem_of_nil in Hin'.
  - apply (bool_decide_unpack _). reflexivity.
  - reflexivity.
  - split; [|exact Hout]. simpl in Hcalls. rewrite Hcalls. apply Hlater.
Defined.

Section NewSubscriber.
Context `{V : Validator}.
Variable body : Callbacks.
Variable c : ContentCtx.

(** With subscribers that do nothing, everyone is called and nobody is
    unsubscribed. *)
Lemma notify_silent (slots : SetData) :
  (forall fn, fn ∈ Set_values slots -> body fn c = []) ->
  notify_in_order body c [] slots = (Set_values slots, []).
Proof.
  induction slots as [|[fn|] slots IH]; intros Hsilent; [done| |by apply IH].
  simpl. rewrite (Hsilent fn) by (by left). simpl.
  rewrite IH; [done|]. intros g Hg. apply Hsilent. by right.
Qed.

Variables f0 g : Subscriber.
Hypothesis body_f0 : body f0 c = [call_subscribe g].
Hypothesis body_g : body g c = [].

(** [forEach] up to the subscriber that subscribes [g], and on to the end
    of the set, which by then holds [g]. *)
Lemma run_forEach_subscribing (mid pre post : SetData) (st : Store) :
  subscribers st = pre ++ mid ++ Some f0 :: post ->
  ctx st = c ->
  (forall fn, fn ∈ Set_values (mid ++ post) -> body fn c = []) ->
  Some g ∉ subscribers st ->
  exists n, forall fuel, n <= fuel ->
    run body fuel (ForEach (length pre)) st
    = Some (Returned
              {| ctx := c;
                 subscribers := subscribers st ++ [Some g];
                 calls := calls st
                            ++ ((fun fn => (fn, c))
                                  <$> (Set_values mid ++ f0 :: Set_values post ++ [g])) |}).
Proof.
  revert pre st. induction mid as [|slot mid IH]; intros pre st Hs Hctx Hsilent Hnew.
  - (* the subscriber that subscribes *)
    set (st2 := {| ctx := c;
                   subscribers := (pre ++ [Some f0]) ++ (post ++ [Some g]);
                   calls := calls st ++ [(f0, c)] |}).
    destruct (run_forEach body (post ++ [Some g]) (pre ++ [Some f0]) [] st2)
      as [n Hn].
    { simpl. by rewrite Set_delete_all_nil. }
    { intros fn Hfn. simpl. unfold Set_values in Hfn.
      rewrite omap_app in Hfn. apply elem_of_app in Hfn as [Hfn|Hfn].
      - rewrite Hsilent; [done|]. simpl. done.
      - simpl in Hfn. apply list_elem_of_singleton in Hfn as ->.
        by rewrite body_g. }
    simpl in Hs.
    assert (Hlook : subscribers st !! length pre = Some (Some f0))
      by (rewrite Hs; by apply list_lookup_middle).
    exists (S (Nat.max n 3)). intros [|fuel] Hfuel; [lia|].
    rewrite run_ForEach_S, Hlook, Hctx, body_f0.
    destruct fuel as [|[|fuel]]; [lia|lia|].
    change (run body (S (S fuel)) (Calls [call_subscribe g]) (record_call f0 st))
      with (Some (Returned (subscribe g (record_call f0 st)))).
    assert (subscribe g (record_call f0 st) = st2) as ->.
    { unfold subscribe, record_call, st2, Set_add, Set_has. simpl.
      rewrite bool_decide_false by done. rewrite Hctx, Hs. simpl.
      f_equal. by rewrite <- !app_assoc. }
    replace (S (length pre)) with (length (pre ++ [Some f0]))
      by (rewrite length_app; simpl; lia).
    rewrite Hn by lia. simpl.
    rewrite notify_silent.
    + simpl. rewrite Set_delete_all_nil, Hs, <- !app_assoc.
      unfold Set_values. rewrite omap_app. reflexivity.
    + intros fn Hfn. unfold Set_values in Hfn.
      rewrite omap_app in Hfn. apply elem_of_app in Hfn as [Hfn|Hfn].
      * by apply Hsilent.
      * simpl in Hfn. by apply list_elem_of_singleton in Hfn as ->.
  - (* a slot before it *)
    assert (Hnext : pre ++ (slot :: mid) ++ Some f0 :: post
                    = (pre ++ [slot]) ++ mid ++ Some f0 :: post)
      by (by rewrite <- app_assoc).
    assert (Hlen : length (pre ++ [slot]) = S (length pre))
      by (rewrite length_app; simpl; lia).
    assert (Hlook : subscribers st !! length pre = Some slot)
      by (rewrite Hs; by apply list_lookup_middle).
    destruct slot as [fn|].
    + set (st1 := record_call fn st).
      destruct (IH (pre ++ [Some fn]) st1) as [n Hn].
      { simpl. by rewrite Hs, Hnext. }
      { done. }
      { intros h Hh. apply Hsilent. simpl. by right. }
      { done. }
      exists (S (S n)). intros [|[|fuel]] Hfuel; [lia|lia|].
      rewrite run_ForEach_S, Hlook, Hctx.
      rewrite (Hsilent fn) by (simpl; by left).
      change (run body (S fuel) (Calls []) (record_call fn st)) with (Some (Returned st1)).
      rewrite <- Hlen, Hn by lia. simpl. rewrite Hctx.
      f_equal. f_equal. by rewrite <- app_assoc.
    + destruct (IH (pre ++ [None]) st) as [n Hn]; try done.
      { by rewrite Hs, Hnext. }
      exists (S n). intros [|fuel] Hfuel; [lia|].
      rewrite run_ForEach_S, Hlook. rewrite <- Hlen. apply Hn. lia.
Qed.

End NewSubscriber.

(** X17. A subscriber that a callback subscribes during a notification
    is called in that same notification, after everyone else: when one
    subscriber subscribes [g] and the others do nothing, [set] ends, and
    has called every subscriber registered at the call and then [g],
    each once with the new context. *)
Theorem set_calls_new_subscriber `{V : Validator}
    (body : Callbacks) (c : ContentCtx) (st : Store)
    (f0 g : Subscriber) (mid post : list (option Subscriber)) :
  subscribers st = mid ++ Some f0 :: post ->
  body f0 c = [call_subscribe g] ->
  body g c = [] ->
  (forall fn, fn ∈ Set_values (mid ++ post) -> body fn c = []) ->
  g ∉ Set_values (subscribers st) ->
  exists n, forall fuel, n <= fuel ->
    set body fuel c st
    = Some (Returned
              {| ctx := c;
                 subscribers := subscribers st ++ [Some g];
                 calls := calls st
                            ++ ((fun fn => (fn, c))
                                  <$> (Set_values (subscribers st) ++ [g])) |}).
Proof.
  intros Hs Hf0 Hg Hsilent Hnew.
  destruct (run_forEach_subscribing body c f0 g Hf0 Hg mid [] post
              (assign_ctx c st)) as [n Hn]; try done.
  { intros Hin. apply Hnew. by apply elem_of_Set_values. }
  exists n. intros fuel Hfuel. unfold set.
  change 0 with (length (@nil (option Subscriber))). rewrite (Hn fuel Hfuel).
  simpl. do 3 f_equal. rewrite Hs. unfold Set_values.
  rewrite !omap_app. simpl. by rewrite <- app_assoc.
Qed.

Lemma set_calls_new_subscriber_witness :
  exists n, forall fuel, n <= fuel ->
    set Examples.subscribes_another fuel Examples.not_found
      Examples.two_subscribers
    = Some (Returned
              {| ctx := Examples.not_found;
                 subscribers := [Some 0; Some 1; Some 2];
                 calls := [(0, Examples.not_found); (1, Examples.not_found);
                           (2, Examples.not_found)] |}).
Proof.
  apply (set_calls_new_subscriber Examples.subscribes_another
           Examples.not_found Examples.two_subscribers 0 2 [] [Some 1]);
    try reflexivity.
  - intros fn Hfn. apply list_elem_of_singleton in Hfn as ->. reflexivity.
  - apply (bool_decide_unpack _). reflexivity.
Defined.

(** ** The field path of an issue *)

Section FlattenPath.
Import Js.

(** X18. The field path of a nested issue is the path of its parent, a
    dot, and the path below it; the empty path is the empty text and a
    path of one segment is that segment. *)
Theorem flattenPath_app (parent child : list PathSegment) (seg : PathSegment) :
  flattenPath [] = EmptyString
  /\ flattenPath [seg] = PathSegment_toString seg
  /\ (parent <> [] -> child <> [] ->
      flattenPath (parent ++ child)
      = flattenPath parent +:+ "." +:+ flattenPath child).
Proof.
  split; [done|]. split; [done|].
  unfold flattenPath, join. intros Hparent Hchild.
  induction parent as [|p parent IH]; [done|].
  destruct parent as [|q parent].
  - destruct child as [|c child]; [done|]. reflexivity.
  - specialize (IH ltac:(done)).
    change (String.concat "." (map PathSegment_toString ((p :: q :: parent) ++ child)))
      with (PathSegment_toString p +:+ "."
              +:+ String.concat "." (map PathSegment_toString ((q :: parent) ++ child))).
    rewrite IH.
    change (String.concat "." (map PathSegment_toString (p :: q :: parent)))
      with (PathSegment_toString p +:+ "."
              +:+ String.concat "." (map PathSegment_toString (q :: parent))).
    by rewrite !app_assoc_string.
Qed.

Lemma flattenPath_app_witness :
  flattenPath ([Key "a"; Key "b"] ++ [Index 0]) = "a.b.0"%string.
Proof.
  rewrite (proj2 (proj2 (flattenPath_app [Key "a"; Key "b"] [Index 0] (Key "a"))))
    by discriminate.
  reflexivity.
Defined.

End FlattenPath.

(** ** The next steps *)

Section NextStepsFacts.
Import NextSteps.

Lemma existsb_eqb_elem_of (key : string) (l : list string) :
  existsb (String.eqb key) l = true <-> key ∈ l.
Proof.
  induction l as [|x l IH]; simpl.
  - split; [done | intros H; by apply elem_of_nil in H].
  - rewrite orb_true_iff, IH, elem_of_cons.
    destruct (String.eqb_spec key x); split; intros [?|?]; auto; done.
Qed.

(** X19. The command that is shown: for a package manager whose name is
    no member of [Object.prototype], it is one of the four commands of
    the table, and [npm run dev] unless the manager is bun, yarn or pnpm;
    for a name that is such a member it is that inherited member, not a
    command. *)
Theorem devCmd_fallback (packageManager : string) :
  (packageManager ∉ Object_prototype ->
   exists s,
     devCmd packageManager = OwnString s
     /\ s ∈ (snd <$> commandMap)
     /\ (packageManager <> "bun"%string -> packageManager <> "yarn"%string ->
         packageManager <> "pnpm"%string -> s = "npm run dev"%string))
  /\ (packageManager ∈ Object_prototype ->
      devCmd packageManager = Inherited packageManager).
Proof.
  split.
  - intros Hout.
    assert (Hex : existsb (String.eqb packageManager) Object_prototype = false).
    { destruct (existsb _ _) eqn:Hex; [|done].
      by apply existsb_eqb_elem_of in Hex. }
    unfold devCmd, property_of, commandMap. cbn [own_property].
    destruct (String.eqb_spec "npm" packageManager) as [<-|_].
    { eexists. split; [reflexivity|]. split; [|done]. by apply (bool_decide_unpack _). }
    destruct (String.eqb_spec "bun" packageManager) as [<-|_].
    { eexists. split; [reflexivity|]. split; [|done]. by apply (bool_decide_unpack _). }
    destruct (String.eqb_spec "yarn" packageManager) as [<-|_].
    { eexists. split; [reflexivity|]. split; [|done]. by apply (bool_decide_unpack _). }
    destruct (String.eqb_spec "pnpm" packageManager) as [<-|_].
    { eexists. split; [reflexivity|]. split; [|done]. by apply (bool_decide_unpack _). }
    rewrite Hex. eexists. split; [reflexivity|].
    split; [|done]. by apply (bool_decide_unpack _).
  - intros Hin. unfold Object_prototype in Hin.
    repeat (apply elem_of_cons in Hin as [->|Hin]; [reflexivity|]).
    by apply elem_of_nil in Hin.
Qed.

Lemma devCmd_fallback_witness :
  exists s, devCmd "deno" = OwnString s /\ s = "npm run dev"%string.
Proof.
  destruct (proj1 (devCmd_fallback "deno")) as (s & Hs & _ & Hnpm).
  - apply (bool_decide_unpack _). reflexivity.
  - exists s. split; [exact Hs|]. apply Hnpm; discriminate.
Defined.

(** X20. [next] calls [nextSteps] first and once, with the project
    directory relative to the working directory and the command for the
    package manager; it calls [say] at most once, with the hat and tie of
    the context, only after [nextSteps] returned and never when Houston
    is skipped; it throws what either call throws. *)
Theorem next_calls (Accessory : Type) (h : Host Accessory)
    (ctx : Context Accessory) :
  let r := next Accessory h ctx in
  let args := {| arg_projectDir := path_relative _ h (process_cwd _ h) (cwd _ ctx);
                 arg_devCmd := devCmd (packageManager _ ctx) |} in
  let options := {| say_hat := hat _ ctx; say_tie := tie _ ctx |} in
  (r.2 = [called_nextSteps _ args]
   \/ r.2 = [called_nextSteps _ args; called_say _ [good_luck] options])
  /\ (skipHouston _ ctx = true -> r.2 = [called_nextSteps _ args])
  /\ (forall e, nextSteps_result _ h args = Throw e ->
        r = (Throw e, [called_nextSteps _ args]))
  /\ (skipHouston _ ctx = false ->
      nextSteps_result _ h args = Normal tt ->
      r = (say_result _ h [good_luck] options,
           [called_nextSteps _ args; called_say _ [good_luck] options])).
Proof.
  intros r args options. subst r. unfold next. fold args. fold options.
  destruct (nextSteps_result Accessory h args) as [[]|e] eqn:Hn.
  - destruct (skipHouston Accessory ctx); simpl.
    + split; [by left|]. by repeat split.
    + destruct (say_result Accessory h [good_luck] options) as [[]|e];
        (split; [by right|]); by repeat split.
  - split; [by left|]. split; [by destruct (skipHouston Accessory ctx)|].
    split; [by intros e' [= <-]|]. done.
Qed.

Lemma next_calls_witness :
  (next unit
     {| path_relative := fun _ to => to; process_cwd := "/home";
        nextSteps_result := fun _ => Normal tt;
        say_result := fun _ _ => Normal tt |}
     {| hat := tt; tie := tt; cwd := "site"; packageManager := "pnpm";
        skipHouston := true |}).2
  = [called_nextSteps unit
       {| arg_projectDir := "site"; arg_devCmd := OwnString "pnpm dev" |}].
Proof.
  apply (proj1 (proj2 (next_calls unit
     {| path_relative := fun _ to => to; process_cwd := "/home";
        nextSteps_result := fun _ => Normal tt;
        say_result := fun _ _ => Normal tt |}
     {| hat := tt; tie := tt; cwd := "site"; packageManager := "pnpm";
        skipHouston := true |}))).
  reflexivity.
Defined.

End NextStepsFacts.
